(** * File merger (merge.js): URL matcher, merge engine, buffer store,
      orchestrator and the two request interceptors.

    The development is a shallow embedding of [merge.js].

    - JavaScript strings are Rocq strings holding the UTF-8 bytes of
      well-formed Unicode text; equality, suffix, substring and splitting on
      an ASCII character agree with the UTF-16 view on such text.
    - Request targets are strings (the [typeof url === 'string'] branch of
      [normalizeUrl]).
    - An [ArrayBuffer] is the list of its bytes.
    - The two objects used as maps, [window.mergedFiles] and [mergeStatus],
      are modelled by their own properties; what they inherit from
      [Object.prototype] is left out.
    - Asynchronous code is modelled by the order in which promises settle and
      timers run, given as explicit schedules and timelines.  Logging is
      left out. *)

From Stdlib Require Import ZArith Ascii DecimalString Permutation.
From Stdlib Require DecimalNat.
From stdpp Require Import base option list gmap strings.

(** ** JavaScript strings and the built-ins the program calls *)

Module Js.

(** [s.split(sep)] for a one-character separator: never empty. *)
Fixpoint split (sep : ascii) (s : string) : list string :=
  match s with
  | EmptyString => [EmptyString]
  | String c s' =>
      if Ascii.eqb c sep then EmptyString :: split sep s'
      else match split sep s' with
           | seg :: segs => String c seg :: segs
           | [] => [String c EmptyString]
           end
  end.

(** [arr[0]] and [arr.pop()] on the (non-empty) result of [split]. *)
Definition first (segs : list string) : string := hd EmptyString segs.
Definition pop (segs : list string) : string := List.last segs EmptyString.

(** [s.startsWith(t)], [s.endsWith(t)], [s.includes(t)]. *)
Fixpoint startsWith (s t : string) : bool :=
  match t, s with
  | EmptyString, _ => true
  | String _ _, EmptyString => false
  | String b t', String a s' => Ascii.eqb a b && startsWith s' t'
  end.

Fixpoint drop (n : nat) (s : string) : string :=
  match n, s with
  | O, _ => s
  | S n', String _ s' => drop n' s'
  | S _, EmptyString => EmptyString
  end.

Definition endsWith (s t : string) : bool :=
  (String.length t <=? String.length s)%nat
  && String.eqb (drop (String.length s - String.length t) s) t.

Fixpoint includes (s t : string) : bool :=
  startsWith s t
  || match s with
     | EmptyString => false
     | String _ s' => includes s' t
     end.

(** [n.toString()] / template interpolation of a non-negative integer. *)
Definition show (n : nat) : string := NilEmpty.string_of_uint (Nat.to_uint n).

(** *** [decodeURIComponent] *)

Definition hex_val (c : ascii) : option N :=
  let n := N_of_ascii c in
  if ((48 <=? n) && (n <=? 57))%N then Some (n - 48)%N
  else if ((65 <=? n) && (n <=? 70))%N then Some (n - 55)%N
  else if ((97 <=? n) && (n <=? 102))%N then Some (n - 87)%N
  else None.

(** Number of leading 1 bits of an octet. *)
Definition leading_ones (b : N) : nat :=
  if (b <? 128)%N then 0
  else if (b <? 192)%N then 1
  else if (b <? 224)%N then 2
  else if (b <? 240)%N then 3
  else if (b <? 248)%N then 4
  else 5.

Definition in_range (lo hi b : N) : bool := ((lo <=? b) && (b <=? hi))%N.

(** The octets are the UTF-8 encoding of one Unicode code point
    (shortest form, no surrogate, at most U+10FFFF). *)
Definition valid_utf8 (octets : list N) : bool :=
  match octets with
  | [b0] => (b0 <? 128)%N
  | [b0; b1] => in_range 194 223 b0 && in_range 128 191 b1
  | [b0; b1; b2] =>
      in_range 128 191 b2
      && ((N.eqb b0 224 && in_range 160 191 b1)
          || (in_range 225 236 b0 && in_range 128 191 b1)
          || (N.eqb b0 237 && in_range 128 159 b1)
          || (in_range 238 239 b0 && in_range 128 191 b1))
  | [b0; b1; b2; b3] =>
      in_range 128 191 b2 && in_range 128 191 b3
      && ((N.eqb b0 240 && in_range 144 191 b1)
          || (in_range 241 243 b0 && in_range 128 191 b1)
          || (N.eqb b0 244 && in_range 128 143 b1))
  | _ => false
  end.

Fixpoint string_of_octets (octets : list N) : string :=
  match octets with
  | [] => EmptyString
  | b :: bs => String (ascii_of_N b) (string_of_octets bs)
  end.

(** The [Decode] loop of ECMAScript with an empty reserved set.  [need] is
    the number of continuation escapes still owed to the multi-byte
    sequence whose octets so far are [pend]; [None] is a thrown
    [URIError]. *)
Fixpoint decode_from (pend : list N) (need : nat) (s : string)
  : option string :=
  match s with
  | EmptyString => match need with O => Some EmptyString | S _ => None end
  | String c rest =>
      if Ascii.eqb c "%" then
        match rest with
        | String h1 (String h2 rest') =>
            match hex_val h1, hex_val h2 with
            | Some a, Some b =>
                let B := (16 * a + b)%N in
                match need with
                | O =>
                    match leading_ones B with
                    | 0 => String (ascii_of_N B) <$> decode_from [] 0 rest'
                    | 2 => decode_from [B] 1 rest'
                    | 3 => decode_from [B] 2 rest'
                    | 4 => decode_from [B] 3 rest'
                    | _ => None
                    end
                | S O =>
                    let octets := pend ++ [B] in
                    if valid_utf8 octets
                    then String.append (string_of_octets octets)
                           <$> decode_from [] 0 rest'
                    else None
                | S (S _ as need') => decode_from (pend ++ [B]) need' rest'
                end
            | _, _ => None
            end
        | _ => None
        end
      else
        match need with
        | O => String c <$> decode_from [] 0 rest
        | S _ => None
        end
  end.

Definition decodeURIComponent (s : string) : option string :=
  decode_from [] 0 s.

(** *** [encodeURIComponent] *)

Definition unreserved (c : ascii) : bool :=
  let n := N_of_ascii c in
  in_range 65 90 n || in_range 97 122 n || in_range 48 57 n
  || existsb (Ascii.eqb c) ["-"; "_"; "."; "!"; "~"; "*"; "'"; "("; ")"]%char.

Definition hex_digit (n : N) : ascii :=
  if (n <? 10)%N then ascii_of_N (48 + n) else ascii_of_N (55 + n).

(** Every string of the model is well-formed Unicode, so the built-in
    never throws here: each byte outside the unreserved set becomes an
    upper-case [%XX] escape. *)
Fixpoint encodeURIComponent (s : string) : string :=
  match s with
  | EmptyString => EmptyString
  | String c s' =>
      if unreserved c then String c (encodeURIComponent s')
      else
        let n := N_of_ascii c in
        String "%" (String (hex_digit (n / 16)) (String (hex_digit (n mod 16))
          (encodeURIComponent s')))
  end.

End Js.

(** ** URL matcher *)

Definition normalizeUrl (url : string) : string :=
  match Js.decodeURIComponent (Js.first (Js.split "?" url)) with
  | Some decoded => decoded
  | None => url
  end.

Definition urlsMatch (url1 url2 : string) : bool :=
  let norm1 := normalizeUrl url1 in
  let norm2 := normalizeUrl url2 in
  if String.eqb norm1 norm2 then true
  else if Js.endsWith norm1 norm2 || Js.endsWith norm2 norm1 then true
  else
    let base1 := Js.pop (Js.split "/" norm1) in
    let base2 := Js.pop (Js.split "/" norm2) in
    String.eqb base1 base2.

(** ** Promises

    A promise is represented by the way it settles.  [Promise.all] depends on
    the order in which its inputs settle only through the rejection it
    reports: the schedule lists input indices in settlement order. *)

Inductive JsError : Type :=
| Error (message : string)     (* [new Error(message)] thrown by merge.js *)
| Foreign (reason : string).   (* a reason raised by the platform *)

Inductive Settled (A : Type) : Type :=
| Fulfilled (value : A)
| Rejected (reason : JsError).
Arguments Fulfilled {A} value.
Arguments Rejected {A} reason.

Section PromiseAll.
Context {A : Type}.

(** Inputs settle in the order [sched]; the first rejection settles the
    aggregate, a fulfilment stores its value at the input's index. *)
Fixpoint settle_in_order (sched : list nat) (ps : list (Settled A))
    (slots : list (option A)) : Settled (list (option A)) :=
  match sched with
  | [] => Fulfilled slots
  | i :: sched' =>
      match ps !! i with
      | Some (Fulfilled v) => settle_in_order sched' ps (<[i := Some v]> slots)
      | Some (Rejected e) => Rejected e
      | None => settle_in_order sched' ps slots
      end
  end.

(** [None]: the aggregate is still pending when the schedule ends. *)
Definition promise_all (sched : list nat) (ps : list (Settled A))
  : option (Settled (list A)) :=
  match settle_in_order sched ps (replicate (length ps) None) with
  | Rejected e => Some (Rejected e)
  | Fulfilled slots => Fulfilled <$> mapM id slots
  end.
End PromiseAll.

(** ** Merge engine *)

Definition ArrayBuffer : Type := list Byte.byte.

Record Response : Type := mkResponse {
  ok : bool;
  status : nat;
  statusText : string;
  headers : list (string * string);
  arrayBuffer : Settled ArrayBuffer     (* how [r.arrayBuffer()] settles *)
}.

(** [target.set(source, offset)] on a [Uint8Array]; [None] is the
    [RangeError] raised when the source does not fit. *)
Definition typed_set (target source : list Byte.byte) (offset : nat)
  : option (list Byte.byte) :=
  if decide (offset + length source <= length target)
  then Some (take offset target ++ source
               ++ drop (offset + length source) target)
  else None.

Fixpoint copy_buffers (buffers : list ArrayBuffer) (offset : nat)
    (mergedArray : list Byte.byte) : option (list Byte.byte) :=
  match buffers with
  | [] => Some mergedArray
  | buffer :: rest =>
      match typed_set mergedArray buffer offset with
      | Some arr => copy_buffers rest (offset + length buffer) arr
      | None => None
      end
  end.

Definition part_paths (filePath : string) (numParts : nat) : list string :=
  (fun i => filePath +:+ ".part" +:+ Js.show i) <$> seq 1 numParts.

(** The loop over [responses] that throws at the first one that is not ok. *)
Fixpoint check_responses (parts : list string) (i : nat)
    (responses : list Response) : option JsError :=
  match responses with
  | [] => None
  | r :: rest =>
      if ok r then check_responses parts (S i) rest
      else Some (Error ("Failed to load "
                          +:+ default "undefined" (parts !! i)
                          +:+ ": " +:+ Js.show (status r)))
  end.

Section Page.
(** The unpatched [fetch]: the way the request for a target (with the
    remaining call arguments) settles. *)
Context {Init : Type}.
Variable originalFetch : string -> list Init -> Settled Response.

(** [fetchOrder] and [readOrder] are the settlement orders of the part
    requests and of the body reads.  The [catch] block logs and rethrows, so
    a rejection is passed on unchanged. *)
Definition mergeSplitFiles (fetchOrder readOrder : list nat)
    (filePath : string) (numParts : nat) : option (Settled ArrayBuffer) :=
  let parts := part_paths filePath numParts in
  fetched ← promise_all fetchOrder ((fun part => originalFetch part []) <$> parts);
  match fetched with
  | Rejected err => Some (Rejected err)
  | Fulfilled responses =>
      match check_responses parts 0 responses with
      | Some err => Some (Rejected err)
      | None =>
          read ← promise_all readOrder (arrayBuffer <$> responses);
          match read with
          | Rejected err => Some (Rejected err)
          | Fulfilled buffers =>
              let totalSize :=
                foldl (fun sum buf => sum + length buf) 0 buffers in
              let mergedArray := replicate totalSize Byte.x00 in
              match copy_buffers buffers 0 mergedArray with
              | Some arr => Some (Fulfilled arr)
              | None => Some (Rejected (Foreign "RangeError"))
              end
          end
      end
  end.

(** What a part request delivers when it succeeds, that is, when it is
    fulfilled with an ok response whose body can be read. *)
Definition partBody (part : string) : option ArrayBuffer :=
  match originalFetch part [] with
  | Fulfilled r =>
      if ok r
      then match arrayBuffer r with
           | Fulfilled body => Some body
           | Rejected _ => None
           end
      else None
  | Rejected _ => None
  end.

(** The response a part request is fulfilled with, if it is. *)
Definition partResponse (part : string) : option Response :=
  match originalFetch part [] with
  | Fulfilled r => Some r
  | Rejected _ => None
  end.
End Page.

(** ** Buffer store and status map

    [window.mergedFiles] is an ordinary object used as a map: own string keys
    with their values, in creation order.  [Object.entries] lists array-index
    keys first, in ascending numeric order, then the other keys in creation
    order.  Every value stored is an [ArrayBuffer], which is truthy. *)

Module JsObject.
Section Obj.
Context {V : Type}.

Fixpoint get (o : list (string * V)) (k : string) : option V :=
  match o with
  | [] => None
  | (k', v) :: o' => if String.eqb k' k then Some v else get o' k
  end.

(** [o[k] = v]: an existing key keeps its place. *)
Fixpoint set (o : list (string * V)) (k : string) (v : V)
  : list (string * V) :=
  match o with
  | [] => [(k, v)]
  | (k', v') :: o' =>
      if String.eqb k' k then (k, v) :: o' else (k', v') :: set o' k v
  end.

Definition digit_val (c : ascii) : option N :=
  let n := N_of_ascii c in
  if Js.in_range 48 57 n then Some (n - 48)%N else None.

Fixpoint digits_val (acc : N) (s : string) : option N :=
  match s with
  | EmptyString => Some acc
  | String c s' => d ← digit_val c; digits_val (10 * acc + d)%N s'
  end.

(** The key is the canonical decimal form of an integer below 2^32 - 1. *)
Definition array_index (k : string) : option N :=
  match k with
  | EmptyString => None
  | String c rest =>
      if Ascii.eqb c "0"
      then match rest with EmptyString => Some 0%N | _ => None end
      else n ← digits_val 0 k;
           if (n <=? 4294967294)%N then Some n else None
  end.

Fixpoint insert_sorted (e : N * (string * V)) (l : list (N * (string * V)))
  : list (N * (string * V)) :=
  match l with
  | [] => [e]
  | e' :: l' =>
      if (e.1 <=? e'.1)%N then e :: l else e' :: insert_sorted e l'
  end.

Definition indexed (o : list (string * V)) : list (N * (string * V)) :=
  omap (fun kv => (fun n => (n, kv)) <$> array_index kv.1) o.

Definition entries (o : list (string * V)) : list (string * V) :=
  (snd <$> foldr insert_sorted [] (indexed o))
  ++ List.filter (fun kv => bool_decide (array_index kv.1 = None)) o.
End Obj.
End JsObject.

Inductive MergeStatus : Type := merging | ready | failed.

#[global] Instance MergeStatus_eq_dec : EqDecision MergeStatus.
Proof. solve_decision. Defined.

Record FileSpec : Type := mkFile { name : string; parts : nat }.

Record Config : Type := mkConfig {
  files : list FileSpec;
  basePath : string;
  debug : bool;
  autoDetect : bool
}.

Record State : Type := mkState {
  mergedFiles : list (string * ArrayBuffer);
  mergeStatus : gmap string MergeStatus
}.

(** Truthiness of a string: non-empty. *)
Definition truthy (s : string) : bool :=
  match s with EmptyString => false | String _ _ => true end.

Definition fullPathOf (config : Config) (fileName : string) : string :=
  if truthy (basePath config) then basePath config +:+ fileName else fileName.

(** ** Interception decision and buffer lookup *)


Fixpoint firstReady (config : Config) (status : gmap string MergeStatus)
    (urlStr : string) (fs : list FileSpec) : option string :=
  match fs with
  | [] => None
  | file :: rest =>
      let fileName := name file in
      let fullPath := fullPathOf config fileName in
      if (urlsMatch urlStr fileName || urlsMatch urlStr fullPath)
         && bool_decide (status !! fileName = Some ready)
      then Some fileName
      else firstReady config status urlStr rest
  end.

Definition shouldInterceptFile (config : Config)
    (status : gmap string MergeStatus) (url : string) : option string :=
  let urlStr := normalizeUrl url in
  if Js.includes urlStr ".part" then None
  else firstReady config status urlStr (files config).

Definition getMergedFile (store : list (string * ArrayBuffer))
    (filename : string) : option ArrayBuffer :=
  match JsObject.get store filename with
  | Some buffer => Some buffer
  | None =>
      snd <$> List.find (fun kv => urlsMatch kv.1 filename)
                (JsObject.entries store)
  end.

(** ** Fetch-style interceptor *)

(** [new Response(buffer, init)]. *)
Definition newResponse (buffer : ArrayBuffer) (st : nat) (text : string)
    (hs : list (string * string)) : Response :=
  {| ok := (200 <=? st)%nat && (st <=? 299)%nat;
     status := st; statusText := text; headers := hs;
     arrayBuffer := Fulfilled buffer |}.

(** What an observer of the page sees at the moments the interceptors look:
    index 0 is the call itself, index [k] the [k]-th timer callback.
    [now] is [Date.now()] in milliseconds, [storeAt] is [window.mergedFiles]. *)
Record Timeline : Type := mkTimeline {
  now : nat -> Z;
  storeAt : nat -> list (string * ArrayBuffer)
}.

Definition maxWait : Z := 30000.

Definition contentTypeOf (filename : string) : string :=
  if Js.endsWith filename ".wasm" then "application/wasm"
  else "application/octet-stream".

(** The response the interceptor resolves with, and the error it rejects
    with. *)
Definition synthesized (filename : string) (buffer : ArrayBuffer) : Response :=
  newResponse buffer 200 "OK"
    [("Content-Type", contentTypeOf filename);
     ("Content-Length", Js.show (length buffer))].

Definition timeoutError (filename : string) : JsError :=
  Error ("Timeout waiting for merged file: " +:+ filename).

(** The [setInterval] callback, from its [k]-th run on; the result carries
    the run at which the promise settled.  [None]: still pending after
    [fuel] runs. *)
Fixpoint checkData (tl : Timeline) (filename : string) (fuel k : nat)
  : option (nat * Settled Response) :=
  match fuel with
  | O => None
  | S fuel' =>
      match getMergedFile (storeAt tl k) filename with
      | Some buffer => Some (k, Fulfilled (synthesized filename buffer))
      | None =>
          if (now tl k - now tl 0 >? maxWait)%Z
          then Some (k, Rejected (timeoutError filename))
          else checkData tl filename fuel' (S k)
      end
  end.

(** What [window.fetch] returns: the original primitive's promise, or the
    promise settled by the polling callback. *)
Inductive FetchReturn : Type :=
| Delegated (r : Settled Response)
| Polling (filename : string).

Section Fetch.
Context {Init : Type}.
Variable originalFetch : string -> list Init -> Settled Response.
Variable config : Config.

Definition window_fetch (status : gmap string MergeStatus)
    (url : string) (args : list Init) : FetchReturn :=
  match shouldInterceptFile config status url with
  | Some filename =>
      if truthy filename then Polling filename
      else Delegated (originalFetch url args)
  | None => Delegated (originalFetch url args)
  end.

(** The settlement the caller of [window.fetch] observes within [fuel]
    timer callbacks. *)
Definition fetch_settles (status : gmap string MergeStatus) (tl : Timeline)
    (fuel : nat) (url : string) (args : list Init)
  : option (Settled Response) :=
  match window_fetch status url args with
  | Delegated r => Some r
  | Polling filename => snd <$> checkData tl filename fuel 1
  end.
End Fetch.

(** ** Callback/event-style interceptor *)

(** The properties [waitForMerge] redefines on the request object. *)
Record XhrProps : Type := mkProps {
  response : ArrayBuffer;
  responseType : string;
  xhrStatus : nat;
  xhrStatusText : string;
  readyState : nat
}.

(** Which [on...] handlers are installed when the notification timer runs. *)
Record Handlers : Type := mkHandlers {
  onprogress : bool;
  onload : bool;
  onreadystatechange : bool
}.

(** The object literal passed to a handler; [target] records whether the
    [target]/[currentTarget] fields (the request object) are present. *)
Record XhrEvent : Type := mkEvent {
  type : string;
  lengthComputable : bool;
  loaded : nat;
  total : nat;
  target : bool
}.

Inductive HandlerCall : Type :=
| CallOnProgress (ev : XhrEvent)
| CallOnLoad (ev : XhrEvent)
| CallOnReadyStateChange.         (* [xhr.onreadystatechange()] *)

(** The argument a handler call receives, if any. *)
Definition callArgument (c : HandlerCall) : option XhrEvent :=
  match c with
  | CallOnProgress ev | CallOnLoad ev => Some ev
  | CallOnReadyStateChange => None
  end.

(** The call hands its handler an event reporting [n] bytes loaded out of
    [n]. *)
Definition carriesLength (n : nat) (c : HandlerCall) : Prop :=
  exists ev, callArgument c = Some ev /\ loaded ev = n /\ total ev = n.

(** The body of the notification timer. *)
Definition notify (h : Handlers) (buffer : ArrayBuffer) : list HandlerCall :=
  (if onprogress h
   then [CallOnProgress (mkEvent "progress" true (length buffer)
                           (length buffer) false)]
   else [])
  ++ (if onload h
      then [CallOnLoad (mkEvent "load" true (length buffer)
                          (length buffer) true)]
      else [])
  ++ (if onreadystatechange h then [CallOnReadyStateChange] else []).

Record Served : Type := mkServed {
  servedAt : nat;              (* the poll that found the buffer *)
  props : XhrProps;
  notifyDelay : Z;             (* delay of the notification timer, ms *)
  calls : list HandlerCall     (* handler calls of that timer, in order *)
}.

(** [waitForMerge] from its [k]-th run on (run 0 is the call made by [send],
    each further run is 50 ms later); there is no ceiling.  The five
    [Object.defineProperty] calls are taken to succeed, as they do on a
    request object.  [None]: still polling after [fuel] runs. *)
Fixpoint waitForMerge (store : nat -> list (string * ArrayBuffer))
    (h : Handlers) (filename : string) (fuel k : nat) : option Served :=
  match fuel with
  | O => None
  | S fuel' =>
      match getMergedFile (store k) filename with
      | Some buffer =>
          Some {| servedAt := k;
                  props := mkProps buffer "arraybuffer" 200 "OK" 4;
                  notifyDelay := 10;
                  calls := notify h buffer |}
      | None => waitForMerge store h filename fuel' (S k)
      end
  end.

Section Xhr.
(** The unpatched request object: its state [X], and [open] and [send] as
    transitions returning what the call returns. *)
Context {X Arg Ret : Type}.
Variable originalOpen : X -> string -> string -> list Arg -> X * Ret.
Variable originalSend : X -> list Arg -> X * Ret.
Variable config : Config.

(** The object the replaced constructor returns: the original object and
    the [requestUrl] captured by its [open] and [send]. *)
Record WrappedXhr : Type := mkWrapped { inner : X; requestUrl : string }.

Definition newXhr (x : X) : WrappedXhr :=
  {| inner := x; requestUrl := "" |}.

Definition xhr_open (w : WrappedXhr) (method url : string)
    (args : list Arg) : WrappedXhr * Ret :=
  let '(x', r) := originalOpen (inner w) method url args in
  ({| inner := x'; requestUrl := url |}, r).

Inductive SendReturn : Type :=
| SendDelegated (w : WrappedXhr) (r : Ret)
| SendIntercepted (filename : string).

Definition delegateSend (w : WrappedXhr) (args : list Arg) : SendReturn :=
  let '(x', r) := originalSend (inner w) args in
  SendDelegated {| inner := x'; requestUrl := requestUrl w |} r.

Definition xhr_send (status : gmap string MergeStatus) (w : WrappedXhr)
    (args : list Arg) : SendReturn :=
  match shouldInterceptFile config status (requestUrl w) with
  | Some filename =>
      if truthy filename then SendIntercepted filename
      else delegateSend w args
  | None => delegateSend w args
  end.

(** A caller's use of one request object: a sequence of [open] and [send]
    calls. *)
Inductive XhrCall : Type :=
| DoOpen (method url : string) (args : list Arg)
| DoSend (args : list Arg).

(** The calls made on the unpatched object: its final state and what each
    call returned. *)
Fixpoint originalLifecycle (x : X) (ops : list XhrCall) : X * list Ret :=
  match ops with
  | [] => (x, [])
  | DoOpen method url args :: rest =>
      let '(x', r) := originalOpen x method url args in
      let '(x'', rs) := originalLifecycle x' rest in
      (x'', r :: rs)
  | DoSend args :: rest =>
      let '(x', r) := originalSend x args in
      let '(x'', rs) := originalLifecycle x' rest in
      (x'', r :: rs)
  end.

(** The same calls made on the object of the replaced constructor, each
    with the status map of its moment; [None] once a [send] is served from
    the store instead. *)
Fixpoint wrappedLifecycle (w : WrappedXhr)
    (ops : list (gmap string MergeStatus * XhrCall))
  : option (WrappedXhr * list Ret) :=
  match ops with
  | [] => Some (w, [])
  | (_, DoOpen method url args) :: rest =>
      let '(w', r) := xhr_open w method url args in
      '(w'', rs) ← wrappedLifecycle w' rest;
      Some (w'', r :: rs)
  | (status, DoSend args) :: rest =>
      match xhr_send status w args with
      | SendDelegated w' r =>
          '(w'', rs) ← wrappedLifecycle w' rest;
          Some (w'', r :: rs)
      | SendIntercepted _ => None
      end
  end.

(** No [send] of the sequence is for a target [shouldInterceptFile]
    recognises; [url] is the target recorded so far. *)
Fixpoint unmatchedSends (url : string)
    (ops : list (gmap string MergeStatus * XhrCall)) : Prop :=
  match ops with
  | [] => True
  | (_, DoOpen _ url' _) :: rest => unmatchedSends url' rest
  | (status, DoSend _) :: rest =>
      shouldInterceptFile config status url = None
      /\ unmatchedSends url rest
  end.
End Xhr.
Arguments SendDelegated {X Ret} w r.
Arguments SendIntercepted {X Ret} filename.
Arguments DoOpen {Arg} method url args.
Arguments DoSend {Arg} args.
Arguments mkWrapped {X} inner requestUrl.
Arguments inner {X} w.
Arguments requestUrl {X} w.

(** ** Merge orchestrator *)

Record MergeResult : Type := mkResult { resultName : string; size : nat }.

Section Orchestrator.
Context {Init : Type}.
Variable originalFetch : string -> list Init -> Settled Response.
Variable config : Config.
(** Settlement orders of the part requests and body reads of file [i]. *)
Variable partOrders : nat -> list nat * list nat.

Definition mergePromise (i : nat) (file : FileSpec)
  : option (Settled ArrayBuffer) :=
  mergeSplitFiles originalFetch (partOrders i).1 (partOrders i).2
    (fullPathOf config (name file)) (parts file).

(** The five keys a merged file is stored under, in assignment order. *)
Definition variants (file : FileSpec) : list string :=
  let fullPath := fullPathOf config (name file) in
  [ name file; fullPath; Js.pop (Js.split "/" (name file));
    Js.encodeURIComponent (name file); Js.encodeURIComponent fullPath ].

(** The [then] callback of a file's merge. *)
Definition onMerged (file : FileSpec) (buffer : ArrayBuffer) (st : State)
  : State * Settled MergeResult :=
  let fullPath := fullPathOf config (name file) in
  let m := JsObject.set (mergedFiles st) (name file) buffer in
  let m := JsObject.set m fullPath buffer in
  let basename := Js.pop (Js.split "/" (name file)) in
  let m := JsObject.set m basename buffer in
  let m := JsObject.set m (Js.encodeURIComponent (name file)) buffer in
  let m := JsObject.set m (Js.encodeURIComponent fullPath) buffer in
  ({| mergedFiles := m;
      mergeStatus := <[name file := ready]> (mergeStatus st) |},
   Fulfilled {| resultName := name file; size := length buffer |}).


(** The [catch] callback. *)
Definition onFailed (file : FileSpec) (err : JsError) (st : State)
  : State * Settled MergeResult :=
  ({| mergedFiles := mergedFiles st;
      mergeStatus := <[name file := failed]> (mergeStatus st) |},
   Rejected err).

(** The merge of file [i] settles and its callback runs. *)
Definition settleFile (st : State) (i : nat) : State :=
  match files config !! i with
  | Some file =>
      match mergePromise i file with
      | Some (Fulfilled buffer) => (onMerged file buffer st).1
      | Some (Rejected err) => (onFailed file err st).1
      | None => st
      end
  | None => st
  end.

(** What the promise returned by [then(...).catch(...)] settles to. *)
Definition filePromise (i : nat) (file : FileSpec)
  : option (Settled MergeResult) :=
  out ← mergePromise i file;
  Some match out with
       | Fulfilled buffer =>
           Fulfilled {| resultName := name file; size := length buffer |}
       | Rejected err => Rejected err
       end.

Definition markMerging (st : State) (file : FileSpec) : State :=
  {| mergedFiles := mergedFiles st;
     mergeStatus := <[name file := merging]> (mergeStatus st) |}.

(** The synchronous part of [autoMergeFiles]: every status is [merging]
    before any callback runs. *)
Definition started (st0 : State) : State :=
  foldl markMerging st0 (files config).

(** The state once the merges listed in [fileOrder] have settled, in that
    order. *)
Definition run (fileOrder : list nat) (st0 : State) : State :=
  foldl settleFile (started st0) fileOrder.

(** The whole of [autoMergeFiles]: final state and the [detail] of the
    [filesMerged] event, when it is dispatched. *)
Definition autoMergeFiles (fileOrder : list nat) (st0 : State)
  : State * option (list MergeResult) :=
  match files config with
  | [] => (st0, None)
  | _ :: _ =>
      (run fileOrder st0,
       match mapM id (imap filePromise (files config)) with
       | Some promises =>
           match promise_all fileOrder promises with
           | Some (Fulfilled results) => Some results
           | _ => None
           end
       | None => None
       end)
  end.
End Orchestrator.

(** The page's state when the script starts: whatever [window.mergedFiles]
    already holds, and an empty status map. *)
Definition initialState (existing : list (string * ArrayBuffer)) : State :=
  {| mergedFiles := existing; mergeStatus := ∅ |}.

(** ** A sample page

    The configuration of the specification's scenario, with a second file
    whose last part is missing on the server. *)

Definition bytes_of (s : string) : ArrayBuffer := String.list_byte_of_string s.

Definition sampleConfig : Config :=
  mkConfig [mkFile "model.bin" 3; mkFile "x/other.wasm" 2] "/assets/"
    false false.

Definition served (body : string) : Settled Response :=
  Fulfilled (mkResponse true 200 "OK" [] (Fulfilled (bytes_of body))).

Definition sampleNet (url : string) (_ : list unit) : Settled Response :=
  if String.eqb url "/assets/model.bin.part1" then served "abc"
  else if String.eqb url "/assets/model.bin.part2" then served "de"
  else if String.eqb url "/assets/model.bin.part3" then served "f"
  else if String.eqb url "/assets/x/other.wasm.part1" then served "wasm"
  else Fulfilled (mkResponse false 404 "Not Found" [] (Fulfilled [])).

Definition sampleOrders (i : nat) : list nat * list nat :=
  match i with
  | 0 => ([2; 0; 1], [1; 2; 0])
  | _ => ([1; 0], [0; 1])
  end.

(** A page with two files of the same base name, kept in different
    directories. *)

Definition twinConfig : Config :=
  mkConfig [mkFile "a/model.bin" 1; mkFile "b/model.bin" 1] "" false false.

Definition twinNet (url : string) (_ : list unit) : Settled Response :=
  if String.eqb url "a/model.bin.part1" then served "AAAA"
  else if String.eqb url "b/model.bin.part1" then served "BB"
  else Fulfilled (mkResponse false 404 "Not Found" [] (Fulfilled [])).

Definition twinOrders (_ : nat) : list nat * list nat := ([0], [0]).

(** ** Vocabulary of the further properties *)

(** ** Configuration

    What the page supplies in [window.fileMergerConfig], each field present
    or not; the configuration in force is
    [Object.assign({}, defaultConfig, window.fileMergerConfig || {})]. *)

Record SuppliedConfig : Type := mkSupplied {
  suppliedFiles : option (list FileSpec);
  suppliedBasePath : option string;
  suppliedDebug : option bool;
  suppliedAutoDetect : option bool
}.

Definition defaultConfig : Config :=
  {| files := []; basePath := ""; debug := false; autoDetect := false |}.

Definition resolveConfig (supplied : option SuppliedConfig) : Config :=
  match supplied with
  | None => defaultConfig
  | Some given =>
      {| files := default (files defaultConfig) (suppliedFiles given);
         basePath := default (basePath defaultConfig) (suppliedBasePath given);
         debug := default (debug defaultConfig) (suppliedDebug given);
         autoDetect :=
           default (autoDetect defaultConfig) (suppliedAutoDetect given) |}
  end.


(** The file is a candidate for the normalized target: one of its two names
    matches it and its status is [ready]. *)
Definition candidate (config : Config) (status : gmap string MergeStatus)
    (urlStr : string) (file : FileSpec) : bool :=
  (urlsMatch urlStr (name file)
   || urlsMatch urlStr (fullPathOf config (name file)))
  && bool_decide (status !! name file = Some ready).

(** The string is the UTF-8 form of well-formed Unicode text, the strings
    the model stands for. *)
Fixpoint wellFormed (s : string) : bool :=
  match s with
  | EmptyString => true
  | String c0 rest =>
      let b0 := N_of_ascii c0 in
      match Js.leading_ones b0 with
      | 0 => wellFormed rest
      | 2 =>
          match rest with
          | String c1 r => Js.valid_utf8 [b0; N_of_ascii c1] && wellFormed r
          | _ => false
          end
      | 3 =>
          match rest with
          | String c1 (String c2 r) =>
              Js.valid_utf8 [b0; N_of_ascii c1; N_of_ascii c2] && wellFormed r
          | _ => false
          end
      | 4 =>
          match rest with
          | String c1 (String c2 (String c3 r)) =>
              Js.valid_utf8 [b0; N_of_ascii c1; N_of_ascii c2; N_of_ascii c3]
              && wellFormed r
          | _ => false
          end
      | _ => false
      end
  end.

(** The escape written for [c], as [decode_from] reads it. *)
Definition escapeOf (c : ascii) (rest : string) : string :=
  String "%" (String (Js.hex_digit (N_of_ascii c / 16))
                (String (Js.hex_digit (N_of_ascii c mod 16)) rest)).

(** A server on which the first part of [data.bin] is missing and the
    request for the second fails in the network. *)
Definition flakyNet (url : string) (_ : list unit) : Settled Response :=
  if String.eqb url "data.bin.part1"
  then Fulfilled (mkResponse false 404 "Not Found" [] (Fulfilled []))
  else if String.eqb url "data.bin.part2"
  then Rejected (Foreign "TypeError: Failed to fetch")
  else served "tail".

(** * Properties *)

(** Closes a decidable goal (a permutation, a membership, distinctness of a
    concrete list) by evaluating its decision procedure. *)
Ltac by_evaluation := by apply (bool_decide_unpack _); vm_compute.

(** ** The model on the sample page *)

Example decode_percent_sequences :
  Js.decodeURIComponent "a%20b%2Fc" = Some "a b/c"
  /\ Js.decodeURIComponent "100%" = None
  /\ Js.decodeURIComponent "%C0%80" = None
  /\ normalizeUrl "100%?x=1" = "100%?x=1".
Proof. by vm_compute. Qed.

Example encode_full_path :
  Js.encodeURIComponent "/assets/model bin.x" = "%2Fassets%2Fmodel%20bin.x".
Proof. reflexivity. Qed.

Example urlsMatch_absolute_url :
  urlsMatch "http://host/assets/model.bin?v=1" "model.bin" = true
  /\ urlsMatch "" "model.bin" = true
  /\ urlsMatch "model.bin" "model.bit" = false.
Proof. by vm_compute. Qed.

Example entries_lists_array_indices_first :
  JsObject.entries [("b", 1); ("10", 2); ("2", 3); ("a", 4); ("01", 5)]
  = [("2", 3); ("10", 2); ("b", 1); ("a", 4); ("01", 5)].
Proof. reflexivity. Qed.

Example merge_sample_file :
  mergeSplitFiles sampleNet [2; 0; 1] [1; 2; 0] "/assets/model.bin" 3
  = Some (Fulfilled (bytes_of "abcdef"))
  /\ mergeSplitFiles sampleNet [1; 0] [0; 1] "/assets/x/other.wasm" 2
     = Some (Rejected (Error "Failed to load /assets/x/other.wasm.part2: 404"))
  /\ mergeSplitFiles sampleNet [2; 0] [1; 2; 0] "/assets/model.bin" 3 = None.
Proof. by vm_compute. Qed.

Example sample_run :
  let final :=
    (autoMergeFiles sampleNet sampleConfig sampleOrders [1; 0]
       (initialState [])).1 in
  mergedFiles final
  = [("model.bin", bytes_of "abcdef"); ("/assets/model.bin", bytes_of "abcdef");
     ("%2Fassets%2Fmodel.bin", bytes_of "abcdef")]
  /\ mergeStatus final !! "model.bin" = Some ready
  /\ mergeStatus final !! "x/other.wasm" = Some failed
  /\ getMergedFile (mergedFiles final) "http://host/assets/model.bin?v=1"
     = Some (bytes_of "abcdef")
  /\ shouldInterceptFile sampleConfig (mergeStatus final) "/assets/model.bin"
     = Some "model.bin"
  /\ shouldInterceptFile sampleConfig (mergeStatus final)
       "/assets/model.bin.part2" = None.
Proof. by vm_compute. Qed.

(** ** Strings *)

Section StringFacts.
Implicit Types s t : string.

Lemma app_cons c s t : String c s +:+ t = String c (s +:+ t).
Proof. reflexivity. Qed.

Lemma app_nil_l s : "" +:+ s = s.
Proof. reflexivity. Qed.


Lemma includes_cons c s t : Js.includes s t = true -> Js.includes (String c s) t = true.
Proof. intros H. simpl. rewrite H. apply orb_true_r. Qed.

Lemma includes_app_l a s t : Js.includes s t = true -> Js.includes (a +:+ s) t = true.
Proof.
  intros H. induction a as [|c a IH]; [done|].
  rewrite app_cons. by apply includes_cons.
Qed.



Lemma includes_char_cons c a s :
  Js.includes (String a s) (String c "") = false ->
  a <> c /\ Js.includes s (String c "") = false.
Proof.
  simpl. intros [H1 H2]%orb_false_elim. split; [|done].
  intros ->. rewrite Ascii.eqb_refl in H1. by destruct s.
Qed.

Lemma split_first_app sep pre s :
  Js.includes pre (String sep "") = false ->
  Js.first (Js.split sep (pre +:+ s)) = pre +:+ Js.first (Js.split sep s).
Proof.
  induction pre as [|a pre IH]; [done|].
  intros [Hne Hpre]%includes_char_cons.
  rewrite !app_cons. simpl.
  destruct (Ascii.eqb_spec a sep) as [->|_]; [done|].
  specialize (IH Hpre). unfold Js.first in *.
  destruct (Js.split sep (pre +:+ s)) as [|seg segs]; simpl in *; by rewrite <- ?IH.
Qed.
End StringFacts.

Section DecodeFacts.


End DecodeFacts.

(** ** URL matcher *)

Lemma urlsMatch_sym a b : urlsMatch a b = urlsMatch b a.
Proof.
  unfold urlsMatch. cbv zeta.
  rewrite (String.eqb_sym (normalizeUrl b)).
  rewrite (orb_comm (Js.endsWith (normalizeUrl b) _)).
  rewrite (String.eqb_sym (Js.pop (Js.split "/" (normalizeUrl b)))).
  reflexivity.
Qed.

(** C7: [urlsMatch] is symmetric, and it is not transitive: a bare file name
    matches two longer names that do not match each other. *)
Theorem urlsMatch_symmetric_not_transitive :
  (forall a b, urlsMatch a b = urlsMatch b a)
  /\ (exists a b c,
        urlsMatch a b = true /\ urlsMatch b c = true /\ urlsMatch a c = false).
Proof.
  split; [exact urlsMatch_sym|].
  exists "assets/model.bin", "model.bin", "old-model.bin".
  by vm_compute.
Qed.

(** ** Part files are not intercepted *)


(** Only the text before the first [?] is inspected: a [.part] that occurs
    in the query does not exclude the request. *)
Example part_marker_in_query_is_not_seen :
  shouldInterceptFile sampleConfig {["model.bin" := ready]}
    "/assets/model.bin?v=3.part2" = Some "model.bin"
  /\ shouldInterceptFile sampleConfig {["model.bin" := ready]}
       "/assets/model.bin.part2?v=3" = None.
Proof. by vm_compute. Qed.



(** ** Promise.all *)

Section PromiseAllFacts.
Context {A : Type}.
Implicit Types (vs : list A) (ps : list (Settled A)) (sched : list nat).

Lemma settle_in_order_fulfilled vs sched :
  forall slots,
    length slots = length vs ->
    exists slots',
      settle_in_order sched (Fulfilled <$> vs) slots = Fulfilled slots'
      /\ length slots' = length vs
      /\ forall j, slots' !! j
                   = if bool_decide (j ∈ sched) then Some <$> vs !! j
                     else slots !! j.
Proof.
  induction sched as [|i sched IH]; intros slots Hlen.
  - exists slots. split_and!; [done..|]. intros j.
    rewrite bool_decide_eq_false_2; [done|]. apply not_elem_of_nil.
  - simpl. rewrite list_lookup_fmap.
    destruct (vs !! i) as [v|] eqn:Hi; simpl.
    + destruct (IH (<[i := Some v]> slots)) as (slots' & Hrun & Hlen' & Hget).
      { by rewrite length_insert. }
      exists slots'. split_and!; [done..|]. intros j. rewrite Hget.
      destruct (decide (j ∈ sched)) as [Hin|Hnin].
      * rewrite !bool_decide_eq_true_2; [done| |done]. by right.
      * rewrite (bool_decide_eq_false_2 _ Hnin).
        destruct (decide (j = i)) as [->|Hne].
        -- rewrite bool_decide_eq_true_2 by left.
           rewrite list_lookup_insert_eq, Hi; [done|].
           apply lookup_lt_Some in Hi. lia.
        -- rewrite list_lookup_insert_ne by done.
           rewrite bool_decide_eq_false_2; [done|].
           by intros [?|?]%elem_of_cons.
    + destruct (IH slots Hlen) as (slots' & Hrun & Hlen' & Hget).
      exists slots'. split_and!; [done..|]. intros j. rewrite Hget.
      destruct (decide (j ∈ sched)) as [Hin|Hnin].
      * rewrite !bool_decide_eq_true_2; [done| |done]. by right.
      * rewrite (bool_decide_eq_false_2 _ Hnin).
        destruct (decide (j = i)) as [->|Hne].
        -- rewrite bool_decide_eq_true_2 by left.
           rewrite Hi. simpl. apply lookup_ge_None.
           apply lookup_ge_None in Hi. lia.
        -- rewrite bool_decide_eq_false_2; [done|].
           by intros [?|?]%elem_of_cons.
Qed.

(** When every input is fulfilled, the aggregate is fulfilled with the
    values in input order, whatever the settlement order. *)
Lemma promise_all_fulfilled vs sched :
  sched ≡ₚ seq 0 (length vs) ->
  promise_all sched (Fulfilled <$> vs) = Some (Fulfilled vs).
Proof.
  intros Hperm. unfold promise_all. rewrite length_fmap.
  destruct (settle_in_order_fulfilled vs sched (replicate (length vs) None))
    as (slots' & -> & Hlen & Hget); [by rewrite length_replicate|].
  assert (slots' = Some <$> vs) as ->.
  { apply (list_eq_same_length _ _ (length vs)); [by rewrite length_fmap|done|].
    intros j x y Hj. rewrite Hget, list_lookup_fmap.
    rewrite bool_decide_eq_true_2; [congruence|].
    rewrite Hperm. apply elem_of_seq. lia. }
  by rewrite mapM_fmap_Some.
Qed.

(** When some scheduled input rejects, the aggregate rejects with the
    reason of a rejected input. *)
Lemma settle_in_order_rejected ps sched :
  forall slots i e,
    i ∈ sched -> ps !! i = Some (Rejected e) ->
    exists e', settle_in_order sched ps slots = Rejected e'
               /\ Rejected e' ∈ ps.
Proof.
  induction sched as [|k sched IH]; intros slots i e Hin Hi.
  - by apply elem_of_nil in Hin.
  - simpl. destruct (decide (k = i)) as [->|Hne].
    + rewrite Hi. exists e. split; [done|]. by eapply list_elem_of_lookup_2.
    + apply elem_of_cons in Hin as [->|Hin]; [done|].
      destruct (ps !! k) as [[v|e0]|] eqn:Hk; eauto.
      exists e0. split; [done|]. by eapply list_elem_of_lookup_2.
Qed.

Lemma promise_all_rejected ps sched i e :
  sched ≡ₚ seq 0 (length ps) ->
  ps !! i = Some (Rejected e) ->
  exists e', promise_all sched ps = Some (Rejected e') /\ Rejected e' ∈ ps.
Proof.
  intros Hperm Hi. unfold promise_all.
  destruct (settle_in_order_rejected ps sched
              (replicate (length ps) None) i e) as (e' & -> & Hin); [|done|eauto].
  rewrite Hperm. apply elem_of_seq. apply lookup_lt_Some in Hi. lia.
Qed.
End PromiseAllFacts.

(** ** Merge engine *)

Lemma reduce_sum (buffers : list ArrayBuffer) (acc : nat) :
  foldl (fun sum buf => sum + length buf) acc buffers
  = acc + sum_list_with length buffers.
Proof.
  revert acc. induction buffers as [|b bs IH]; intros acc; simpl; [lia|].
  rewrite IH. lia.
Qed.

Lemma length_concat_sum (buffers : list ArrayBuffer) :
  length (concat buffers) = sum_list_with length buffers.
Proof.
  induction buffers as [|b bs IH]; simpl; [done|].
  by rewrite length_app, IH.
Qed.

(** The copy loop: with [copied] already in place and room for the remaining
    buffers, it writes them one after the other. *)
Lemma copy_buffers_concat (buffers : list ArrayBuffer) :
  forall copied room,
    length room = sum_list_with length buffers ->
    copy_buffers buffers (length copied) (copied ++ room)
    = Some (copied ++ concat buffers).
Proof.
  induction buffers as [|b bs IH]; intros copied room Hroom; simpl in *.
  - destruct room; [|done]. by rewrite !app_nil_r.
  - unfold typed_set. rewrite length_app. case_decide; [|lia].
    rewrite take_app_length.
    rewrite drop_app_ge by lia.
    replace (length copied + length b - length copied) with (length b) by lia.
    specialize (IH (copied ++ b) (drop (length b) room)).
    rewrite length_app, <- !(assoc (++)) in IH. rewrite IH; [done|].
    rewrite length_drop. lia.
Qed.

Lemma fulfilled_or_rejected {A} (ps : list (Settled A)) :
  (exists vs, ps = Fulfilled <$> vs)
  \/ (exists i e, ps !! i = Some (Rejected e)).
Proof.
  induction ps as [|[v|e] ps [[vs ->]|(i & e' & Hi)]].
  - left. by exists [].
  - left. by exists (v :: vs).
  - right. by exists (S i), e'.
  - right. by exists 0, e.
  - right. by exists 0, e.
Qed.

Lemma check_responses_all_ok parts i responses :
  Forall (fun r => ok r = true) responses ->
  check_responses parts i responses = None.
Proof.
  intros Hall. revert i. induction Hall as [|r rs Hr _ IH]; intros i; simpl.
  - done.
  - by rewrite Hr.
Qed.


Lemma check_responses_None parts responses :
  forall i, check_responses parts i responses = None ->
            Forall (fun r => ok r = true) responses.
Proof.
  induction responses as [|r rs IH]; intros i H; [done|].
  simpl in H. destruct (ok r) eqn:Hr; [|done]. constructor; eauto.
Qed.

Section MergeFacts.
Context {Init : Type}.
Variable originalFetch : string -> list Init -> Settled Response.
Implicit Types (parts : list string) (bodies : list ArrayBuffer).

Lemma partBody_responses parts bodies :
  Forall2 (fun p b => partBody originalFetch p = Some b) parts bodies ->
  exists responses,
    (fun part => originalFetch part []) <$> parts = Fulfilled <$> responses
    /\ Forall (fun r => ok r = true) responses
    /\ arrayBuffer <$> responses = Fulfilled <$> bodies.
Proof.
  induction 1 as [|p b parts bodies Hp _ (responses & Hf & Hok & Hb)].
  - by exists [].
  - unfold partBody in Hp.
    destruct (originalFetch p []) as [r|] eqn:Hr; [|done].
    destruct (ok r) eqn:Hokr; [|done].
    destruct (arrayBuffer r) as [b'|] eqn:Hbr; [|done].
    injection Hp as ->. exists (r :: responses).
    rewrite !fmap_cons, Hr, Hf, Hbr, Hb. split_and!; [done| |done]. by constructor.
Qed.

Lemma responses_partBody parts responses bodies :
  (fun part => originalFetch part []) <$> parts = Fulfilled <$> responses ->
  Forall (fun r => ok r = true) responses ->
  arrayBuffer <$> responses = Fulfilled <$> bodies ->
  mapM (partBody originalFetch) parts = Some bodies.
Proof.
  intros Hf Hok Hb. apply mapM_Some.
  revert parts bodies Hf Hb.
  induction Hok as [|r rs Hr _ IH]; intros [|p parts] [|b bodies] Hf Hb;
    try done.
  simpl in *. injection Hf as Hp Hf. injection Hb as Hbr Hb.
  constructor; [|by apply IH].
  unfold partBody. by rewrite Hp, Hr, Hbr.
Qed.

Lemma length_part_paths filePath numParts :
  length (part_paths filePath numParts) = numParts.
Proof. unfold part_paths. by rewrite length_fmap, length_seq. Qed.

(** With complete settlement orders the merge settles: it is fulfilled with
    the part bodies joined in index order when every part request succeeds,
    and rejected otherwise. *)
Lemma mergeSplitFiles_cases fetchOrder readOrder filePath numParts :
  fetchOrder ≡ₚ seq 0 numParts ->
  readOrder ≡ₚ seq 0 numParts ->
  (exists bodies,
      mapM (partBody originalFetch) (part_paths filePath numParts)
      = Some bodies
      /\ mergeSplitFiles originalFetch fetchOrder readOrder filePath numParts
         = Some (Fulfilled (concat bodies)))
  \/ (mapM (partBody originalFetch) (part_paths filePath numParts) = None
      /\ exists err,
          mergeSplitFiles originalFetch fetchOrder readOrder filePath numParts
          = Some (Rejected err)).
Proof.
  intros Hfetch Hread. unfold mergeSplitFiles. cbv zeta.
  pose proof (length_part_paths filePath numParts) as Hlen.
  set (parts := part_paths filePath numParts) in *.
  destruct (mapM (partBody originalFetch) parts) as [bodies|] eqn:Hall.
  - left. exists bodies. split; [done|].
    apply mapM_Some in Hall as Hall2.
    destruct (partBody_responses _ _ Hall2) as (responses & Hf & Hok & Hb).
    assert (length responses = numParts) as Hlr.
    { pose proof (f_equal length Hf) as Hl. rewrite !length_fmap in Hl. lia. }
    assert (length bodies = numParts) as Hlb.
    { pose proof (f_equal length Hb) as Hl. rewrite !length_fmap in Hl. lia. }
    rewrite Hf, promise_all_fulfilled by by rewrite Hlr.
    simpl. rewrite check_responses_all_ok by done.
    rewrite Hb, promise_all_fulfilled by by rewrite Hlb.
    simpl. rewrite reduce_sum. simpl.
    pose proof (copy_buffers_concat bodies []
                  (replicate (sum_list_with length bodies) Byte.x00)) as Hc.
    simpl in Hc. rewrite Hc; [done|by rewrite length_replicate].
  - right. split; [done|].
    destruct (fulfilled_or_rejected ((fun part => originalFetch part []) <$> parts))
      as [[responses Hf]|(i & e & Hi)].
    + assert (length responses = numParts) as Hlr.
      { pose proof (f_equal length Hf) as Hl. rewrite !length_fmap in Hl. lia. }
      rewrite Hf, promise_all_fulfilled by by rewrite Hlr.
      simpl. destruct (check_responses parts 0 responses) as [err|] eqn:Hchk;
        [by exists err|].
      apply check_responses_None in Hchk.
      destruct (fulfilled_or_rejected (arrayBuffer <$> responses))
        as [[bodies Hb]|(j & e & Hj)].
      * by rewrite (responses_partBody _ _ _ Hf Hchk Hb) in Hall.
      * destruct (promise_all_rejected (arrayBuffer <$> responses) readOrder j e)
          as (e' & -> & _); [by rewrite length_fmap, Hlr|done|].
        by exists e'.
    + destruct (promise_all_rejected
                  ((fun part => originalFetch part []) <$> parts)
                  fetchOrder i e) as (e' & -> & _);
        [by rewrite length_fmap, Hlen|done|].
      by exists e'.
Qed.
End MergeFacts.

(** C1: when every part request succeeds, [mergeSplitFiles] is fulfilled with
    the part bodies joined in ascending part-index order, whatever the order
    in which the part responses and the body reads complete, and the length
    of the buffer is the sum of the part lengths.  (This holds for every
    [numParts], in particular for [numParts >= 1].) *)
Theorem mergeSplitFiles_joins_parts_in_index_order
    {Init : Type} (originalFetch : string -> list Init -> Settled Response)
    (fetchOrder readOrder : list nat) (fullPath : string) (numParts : nat)
    (bodies : list ArrayBuffer) :
  fetchOrder ≡ₚ seq 0 numParts ->
  readOrder ≡ₚ seq 0 numParts ->
  Forall2 (fun part body => partBody originalFetch part = Some body)
    (part_paths fullPath numParts) bodies ->
  exists buffer,
    mergeSplitFiles originalFetch fetchOrder readOrder fullPath numParts
    = Some (Fulfilled buffer)
    /\ buffer = concat bodies
    /\ length buffer = sum_list_with length bodies.
Proof.
  intros Hfetch Hread Hparts%mapM_Some.
  destruct (mergeSplitFiles_cases originalFetch fetchOrder readOrder
              fullPath numParts Hfetch Hread)
    as [(bodies' & Hsome & Hrun)|[Hnone _]]; [|congruence].
  assert (bodies' = bodies) as -> by congruence.
  exists (concat bodies). split_and!; [done..|apply length_concat_sum].
Qed.

Lemma mergeSplitFiles_joins_parts_in_index_order_witness :
  [2; 0; 1] ≡ₚ seq 0 3
  /\ [1; 2; 0] ≡ₚ seq 0 3
  /\ exists buffer,
      mergeSplitFiles sampleNet [2; 0; 1] [1; 2; 0] "/assets/model.bin" 3
      = Some (Fulfilled buffer)
      /\ buffer = concat [bytes_of "abc"; bytes_of "de"; bytes_of "f"]
      /\ length buffer = sum_list_with length [bytes_of "abc"; bytes_of "de"; bytes_of "f"].
Proof.
  assert (H1 : [2; 0; 1] ≡ₚ seq 0 3) by by_evaluation.
  assert (H2 : [1; 2; 0] ≡ₚ seq 0 3) by by_evaluation.
  split_and!; [done..|].
  apply (mergeSplitFiles_joins_parts_in_index_order sampleNet); [done..|].
  repeat constructor.
Defined.

(** ** Buffer store *)

Section StoreFacts.
Context {V : Type}.
Implicit Types (o : list (string * V)) (k : string) (v : V).

Lemma get_set o k v k' :
  JsObject.get (JsObject.set o k v) k'
  = if String.eqb k k' then Some v else JsObject.get o k'.
Proof.
  induction o as [|[k0 v0] o IH]; simpl.
  - by destruct (String.eqb k k').
  - destruct (String.eqb_spec k0 k) as [->|Hne]; simpl.
    + by destruct (String.eqb k k').
    + rewrite IH. destruct (String.eqb_spec k0 k') as [->|Hne'].
      * by destruct (String.eqb_spec k k') as [->|_].
      * done.
Qed.

Lemma get_set_eq o k v : JsObject.get (JsObject.set o k v) k = Some v.
Proof. by rewrite get_set, String.eqb_refl. Qed.

Lemma get_set_ne o k v k' :
  k <> k' -> JsObject.get (JsObject.set o k v) k' = JsObject.get o k'.
Proof. intros Hne. rewrite get_set. by apply String.eqb_neq in Hne as ->. Qed.
End StoreFacts.

Lemma getMergedFile_exact store filename buffer :
  JsObject.get store filename = Some buffer ->
  getMergedFile store filename = Some buffer.
Proof. intros H. unfold getMergedFile. by rewrite H. Qed.

(** ** Orchestrator *)

Section OrchestratorFacts.
Context {Init : Type}.
Variable originalFetch : string -> list Init -> Settled Response.
Variable config : Config.
Variable partOrders : nat -> list nat * list nat.

Local Abbreviation settle := (settleFile originalFetch config partOrders).
Local Abbreviation promiseOf :=
  (mergePromise originalFetch config partOrders).
Local Abbreviation runAll := (run originalFetch config partOrders).

(** The store after the [then] callback: the five keys hold the buffer,
    every other key is untouched. *)
Lemma onMerged_get file buffer st key :
  JsObject.get (mergedFiles (onMerged config file buffer st).1) key
  = if bool_decide (key ∈ variants config file) then Some buffer
    else JsObject.get (mergedFiles st) key.
Proof using Type.
  clear originalFetch partOrders.
  unfold onMerged, variants. cbv zeta. simpl. rewrite !get_set.
  repeat match goal with
         | |- context [String.eqb ?a key] =>
             destruct (String.eqb_spec a key) as [?|?]
         end;
    try (rewrite bool_decide_eq_true_2;
         [done|rewrite !elem_of_cons; auto 10]).
  rewrite bool_decide_eq_false_2; [done|].
  rewrite !elem_of_cons, elem_of_nil. intuition congruence.
Qed.

Lemma settleFile_store st i :
  mergedFiles (settle st i) = mergedFiles st
  \/ exists file buffer,
      files config !! i = Some file
      /\ promiseOf i file = Some (Fulfilled buffer)
      /\ settle st i = (onMerged config file buffer st).1.
Proof.
  unfold settleFile.
  destruct (files config !! i) as [file|] eqn:Hi; [|by left].
  destruct (promiseOf i file) as [[buffer|err]|] eqn:Hm; [|by left..].
  right. exists file, buffer. by split_and!.
Qed.




Lemma run_snoc order i st0 :
  runAll (order ++ [i]) st0 = settle (runAll order st0) i.
Proof. unfold run. by rewrite foldl_app. Qed.


(** Starting the merges marks no file [ready]. *)
Lemma started_not_ready st0 n :
  mergeStatus (started config st0) !! n = Some ready ->
  mergeStatus st0 !! n = Some ready.
Proof.
  unfold started. generalize (files config) as fs. intros fs. revert st0.
  induction fs as [|f fs IH]; intros st0; simpl; [done|].
  intros H%IH. simpl in H.
  destruct (decide (name f = n)) as [<-|Hne].
  - by rewrite lookup_insert_eq in H.
  - by rewrite lookup_insert_ne in H.
Qed.




(** A status is [ready] only once the file's own name is a key of the
    store; later callbacks never remove a key. *)
Lemma run_ready_published order st0 n :
  (forall m, mergeStatus st0 !! m <> Some ready) ->
  mergeStatus (runAll order st0) !! n = Some ready ->
  is_Some (JsObject.get (mergedFiles (runAll order st0)) n).
Proof.
  intros Hinit.
  induction order as [|i order IH] using rev_ind.
  - unfold run. simpl. intros H%started_not_ready. by apply Hinit in H.
  - rewrite run_snoc. unfold settleFile at 1 2.
    destruct (files config !! i) as [file|]; [|done].
    destruct (promiseOf i file) as [[buffer|err]|]; [| |done].
    + intros Hst. rewrite onMerged_get. case_bool_decide; [done|].
      simpl in Hst. rewrite lookup_insert_ne in Hst; [by apply IH|].
      intros <-. unfold variants in *. set_solver.
    + simpl. intros Hst.
      destruct (decide (name file = n)) as [<-|Hne].
      * by rewrite lookup_insert_eq in Hst.
      * rewrite lookup_insert_ne in Hst by done. by apply IH.
Qed.

Lemma run_store_monotone order more st0 key :
  is_Some (JsObject.get (mergedFiles (runAll order st0)) key) ->
  is_Some (JsObject.get (mergedFiles (runAll (order ++ more) st0)) key).
Proof.
  intros Hkey. induction more as [|i more IH] using rev_ind.
  - by rewrite app_nil_r.
  - rewrite (assoc (++)), run_snoc.
    destruct (settleFile_store (runAll (order ++ more) st0) i)
      as [->|(file & b & Hi & Hm & ->)]; [done|].
    rewrite onMerged_get. by case_bool_decide.
Qed.

End OrchestratorFacts.

(** ** Failure isolation *)

Section FailureFacts.
Context {Init : Type}.
Variable originalFetch : string -> list Init -> Settled Response.


End FailureFacts.




(** ** Lookup under the filename variants *)




(** ** Interception implies a published buffer *)

Lemma firstReady_ready config status urlStr fs filename :
  firstReady config status urlStr fs = Some filename ->
  status !! filename = Some ready.
Proof.
  induction fs as [|file fs IH]; simpl; [done|].
  destruct (_ && _) eqn:Hcond; [|done].
  intros [= <-]. apply andb_true_iff in Hcond as [_ Hst].
  by apply bool_decide_eq_true in Hst.
Qed.

Lemma shouldInterceptFile_ready config status url filename :
  shouldInterceptFile config status url = Some filename ->
  status !! filename = Some ready.
Proof.
  unfold shouldInterceptFile. destruct (Js.includes _ _); [done|].
  apply firstReady_ready.
Qed.

(** C10: when [shouldInterceptFile] returns a file name, at any moment of the
    run, the store already holds a buffer under that name and keeps one from
    then on; hence the first poll of the fetch-style interceptor finds a
    buffer and fulfils the request, whatever the clock says: the timeout
    branch is not taken. *)
Theorem intercepted_fetch_is_served_at_first_poll
    {Init : Type} (originalFetch : string -> list Init -> Settled Response)
    (config : Config) (partOrders : nat -> list nat * list nat)
    (settled later : list nat) (existing : list (string * ArrayBuffer))
    (url filename : string) (tl : Timeline) (fuel : nat) :
  let atCall :=
    run originalFetch config partOrders settled (initialState existing) in
  let atFirstPoll :=
    run originalFetch config partOrders (settled ++ later)
      (initialState existing) in
  shouldInterceptFile config (mergeStatus atCall) url = Some filename ->
  storeAt tl 1 = mergedFiles atFirstPoll ->
  (exists buffer, getMergedFile (mergedFiles atCall) filename = Some buffer)
  /\ exists buffer,
      getMergedFile (mergedFiles atFirstPoll) filename = Some buffer
      /\ checkData tl filename (S fuel) 1
         = Some (1, Fulfilled (newResponse buffer 200 "OK"
                   [("Content-Type", contentTypeOf filename);
                    ("Content-Length", Js.show (length buffer))])).
Proof.
  intros atCall atFirstPoll Hsome Hstore.
  apply shouldInterceptFile_ready in Hsome.
  assert (Hnow : is_Some (JsObject.get (mergedFiles atCall) filename)).
  { apply run_ready_published; [|done]. intros m. simpl. by rewrite lookup_empty. }
  pose proof (run_store_monotone originalFetch config partOrders settled later
                (initialState existing) filename Hnow) as [b' Hb'].
  destruct Hnow as [b Hb]. split.
  - exists b. by apply getMergedFile_exact.
  - exists b'. apply getMergedFile_exact in Hb'. split; [done|].
    simpl. fold atFirstPoll in Hb'. by rewrite Hstore, Hb'.
Qed.

Lemma intercepted_fetch_is_served_at_first_poll_witness :
  let atCall := run sampleNet sampleConfig sampleOrders [0] (initialState []) in
  let tl :=
    mkTimeline (fun k => 50 * Z.of_nat k)%Z
      (fun _ => mergedFiles (run sampleNet sampleConfig sampleOrders
                               ([0] ++ [1]) (initialState []))) in
  shouldInterceptFile sampleConfig (mergeStatus atCall)
    "http://host/assets/model.bin?v=3" = Some "model.bin"
  /\ exists buffer,
      checkData tl "model.bin" 1 1
      = Some (1, Fulfilled (newResponse buffer 200 "OK"
                [("Content-Type", contentTypeOf "model.bin");
                 ("Content-Length", Js.show (length buffer))])).
Proof.
  intros atCall tl.
  assert (Hsome : shouldInterceptFile sampleConfig (mergeStatus atCall)
                    "http://host/assets/model.bin?v=3" = Some "model.bin")
    by (by vm_compute).
  split; [exact Hsome|].
  destruct (intercepted_fetch_is_served_at_first_poll sampleNet sampleConfig
              sampleOrders [0] [1] [] "http://host/assets/model.bin?v=3"
              "model.bin" tl 0 Hsome eq_refl) as (_ & buffer & _ & Hpoll).
  by exists buffer.
Defined.

(** ** Requests for a file that is not ready *)

Lemma firstReady_none config status urlStr fs :
  (forall file, file ∈ fs ->
     urlsMatch urlStr (name file)
     || urlsMatch urlStr (fullPathOf config (name file)) = true ->
     status !! name file <> Some ready) ->
  firstReady config status urlStr fs = None.
Proof.
  induction fs as [|file fs IH]; intros Hnot; simpl; [done|].
  destruct (urlsMatch urlStr (name file)
            || urlsMatch urlStr (fullPathOf config (name file))) eqn:Hm; simpl.
  - rewrite bool_decide_eq_false_2.
    + apply IH. intros f Hf. apply Hnot. by right.
    + apply Hnot; [by left|done].
  - apply IH. intros f Hf. apply Hnot. by right.
Qed.

(** C3, as stated, fails: a request for a file whose merge failed is not
    intercepted at all, so it does not time out; the original primitive
    answers it (here with the server's 404). *)
Lemma failed_file_request_counterexample :
  let final :=
    (autoMergeFiles sampleNet sampleConfig sampleOrders [1; 0]
       (initialState [])).1 in
  let tl := mkTimeline (fun k => 50 * Z.of_nat k)%Z (fun _ => mergedFiles final) in
  mergeStatus final !! "x/other.wasm" = Some failed
  /\ urlsMatch (normalizeUrl "/assets/x/other.wasm") "x/other.wasm" = true
  /\ window_fetch sampleNet sampleConfig (mergeStatus final)
       "/assets/x/other.wasm" []
     = Delegated (sampleNet "/assets/x/other.wasm" [])
  /\ fetch_settles sampleNet sampleConfig (mergeStatus final) tl 1000
       "/assets/x/other.wasm" []
     = Some (Fulfilled (mkResponse false 404 "Not Found" [] (Fulfilled [])))
  /\ fetch_settles sampleNet sampleConfig (mergeStatus final) tl 1000
       "/assets/x/other.wasm" []
     <> Some (Rejected (Error "Timeout waiting for merged file: x/other.wasm")).
Proof. by vm_compute. Qed.

(** C3, amended: when every configured file the request matches has a status
    other than [ready] (for instance [failed]), the fetch-style interceptor
    synthesizes nothing and does not wait: the call goes to the original
    primitive with the same arguments and settles as that call settles. *)
Theorem request_for_unready_file_is_delegated
    {Init : Type} (originalFetch : string -> list Init -> Settled Response)
    (config : Config) (status : gmap string MergeStatus)
    (url : string) (init : list Init) (tl : Timeline) (fuel : nat) :
  (forall file, file ∈ files config ->
     urlsMatch (normalizeUrl url) (name file)
     || urlsMatch (normalizeUrl url) (fullPathOf config (name file)) = true ->
     status !! name file <> Some ready) ->
  shouldInterceptFile config status url = None
  /\ window_fetch originalFetch config status url init
     = Delegated (originalFetch url init)
  /\ fetch_settles originalFetch config status tl fuel url init
     = Some (originalFetch url init).
Proof.
  intros Hnot.
  assert (Hnone : shouldInterceptFile config status url = None).
  { unfold shouldInterceptFile. destruct (Js.includes _ _); [done|].
    by apply firstReady_none. }
  unfold fetch_settles, window_fetch. by rewrite Hnone.
Qed.

Lemma request_for_unready_file_is_delegated_witness :
  let status : gmap string MergeStatus :=
    {["model.bin" := ready; "x/other.wasm" := failed]} in
  (forall file, file ∈ files sampleConfig ->
     urlsMatch (normalizeUrl "/assets/x/other.wasm") (name file)
     || urlsMatch (normalizeUrl "/assets/x/other.wasm")
          (fullPathOf sampleConfig (name file)) = true ->
     status !! name file <> Some ready)
  /\ window_fetch sampleNet sampleConfig status "/assets/x/other.wasm" []
     = Delegated (sampleNet "/assets/x/other.wasm" []).
Proof.
  intros status.
  assert (Hnot : forall file, file ∈ files sampleConfig ->
     urlsMatch (normalizeUrl "/assets/x/other.wasm") (name file)
     || urlsMatch (normalizeUrl "/assets/x/other.wasm")
          (fullPathOf sampleConfig (name file)) = true ->
     status !! name file <> Some ready).
  { intros file Hin. simpl in Hin.
    apply elem_of_cons in Hin as [->|Hin].
    - by vm_compute.
    - apply list_elem_of_singleton in Hin as ->. by vm_compute. }
  split; [exact Hnot|].
  apply (request_for_unready_file_is_delegated sampleNet sampleConfig status
           "/assets/x/other.wasm" [] (mkTimeline (fun _ => 0%Z) (fun _ => []))
           0 Hnot).
Defined.

(** ** The bounded wait of the fetch-style interceptor *)

Section PollFacts.
Variable tl : Timeline.
Variable filename : string.

Local Abbreviation synthesized := (synthesized filename).
Local Abbreviation timeoutError := (timeoutError filename).




End PollFacts.

(** The buffer is looked up before the clock: a buffer found by the first
    poll past the ceiling still fulfils the request. *)
Example buffer_found_at_the_deciding_poll :
  let tl :=
    mkTimeline (fun k => 50 * Z.of_nat k)%Z
      (fun k => if (k <? 601)%nat then []
                else [("model.bin", bytes_of "abcdef")]) in
  (now tl 601 - now tl 0 > maxWait)%Z
  /\ checkData tl "model.bin" 700 1
     = Some (601, Fulfilled (synthesized "model.bin" (bytes_of "abcdef"))).
Proof. by vm_compute. Qed.



(** ** Requests that match no configured file *)

Section DelegationFacts.
Context {X Arg Ret : Type}.
Variable originalOpen : X -> string -> string -> list Arg -> X * Ret.
Variable originalSend : X -> list Arg -> X * Ret.
Variable config : Config.

Lemma xhr_send_unmatched status (w : WrappedXhr) args :
  shouldInterceptFile config status (requestUrl w) = None ->
  xhr_send originalSend config status w args
  = SendDelegated
      (mkWrapped (originalSend (inner w) args).1 (requestUrl w))
      (originalSend (inner w) args).2.
Proof.
  intros Hnone. unfold xhr_send, delegateSend. rewrite Hnone.
  by destruct (originalSend (inner w) args).
Qed.

Lemma wrappedLifecycle_unmatched ops :
  forall w : WrappedXhr,
    unmatchedSends config (requestUrl w) ops ->
    exists w',
      wrappedLifecycle originalOpen originalSend config w ops
      = Some (w', (originalLifecycle originalOpen originalSend
                     (inner w) ops.*2).2)
      /\ inner w'
         = (originalLifecycle originalOpen originalSend (inner w) ops.*2).1.
Proof.
  induction ops as [|[status [method url args|args]] ops IH];
    intros w Hun; rewrite ?fmap_cons;
    cbn [wrappedLifecycle originalLifecycle unmatchedSends snd] in *.
  - by exists w.
  - unfold xhr_open.
    destruct (originalOpen (inner w) method url args) as [x' r].
    destruct (IH (mkWrapped x' url) Hun) as (w' & -> & Hinner).
    cbn [inner mbind option_bind] in *.
    destruct (originalLifecycle _ _ x' ops.*2) as [x'' rs].
    by exists w'.
  - destruct Hun as [Hnone Hun].
    rewrite (xhr_send_unmatched _ _ _ Hnone).
    destruct (originalSend (inner w) args) as [x' r].
    cbn [fst snd].
    destruct (IH (mkWrapped x' (requestUrl w)) Hun) as (w' & -> & Hinner).
    cbn [inner mbind option_bind] in *.
    destruct (originalLifecycle _ _ x' ops.*2) as [x'' rs].
    by exists w'.
Qed.
End DelegationFacts.

(** C6: a [fetch] for a target [shouldInterceptFile] does not recognise is the
    original [fetch] called with the same arguments, and the caller observes
    its result; a request object of the replaced constructor, driven through
    any sequence of [open] and [send] calls none of whose sends is recognised,
    makes exactly the calls of the original object, returns what they return
    and ends in the same state. *)
Theorem unmatched_requests_use_original_primitives
    {Init X Arg Ret : Type}
    (originalFetch : string -> list Init -> Settled Response)
    (originalOpen : X -> string -> string -> list Arg -> X * Ret)
    (originalSend : X -> list Arg -> X * Ret)
    (config : Config) (status : gmap string MergeStatus)
    (url : string) (init : list Init) (tl : Timeline) (fuel : nat)
    (x : X) (ops : list (gmap string MergeStatus * XhrCall)) :
  shouldInterceptFile config status url = None ->
  unmatchedSends config "" ops ->
  window_fetch originalFetch config status url init
  = Delegated (originalFetch url init)
  /\ fetch_settles originalFetch config status tl fuel url init
     = Some (originalFetch url init)
  /\ exists w',
      wrappedLifecycle originalOpen originalSend config (newXhr x) ops
      = Some (w', (originalLifecycle originalOpen originalSend x ops.*2).2)
      /\ inner w' = (originalLifecycle originalOpen originalSend x ops.*2).1.
Proof.
  intros Hnone Hun. split_and!.
  - unfold window_fetch. by rewrite Hnone.
  - unfold fetch_settles, window_fetch. by rewrite Hnone.
  - by apply (wrappedLifecycle_unmatched originalOpen originalSend config ops
                (newXhr x)).
Qed.

Lemma unmatched_requests_use_original_primitives_witness :
  let status : gmap string MergeStatus := {["model.bin" := ready]} in
  let ops := [(status, DoOpen "GET" "/index.html" [tt]); (status, DoSend [])] in
  let open (x : nat) (_ _ : string) (_ : list unit) := (S x, x) in
  let send (x : nat) (_ : list unit) := (x + 10, x) in
  shouldInterceptFile sampleConfig status "/assets/style.css" = None
  /\ unmatchedSends sampleConfig "" ops
  /\ window_fetch sampleNet sampleConfig status "/assets/style.css" []
     = Delegated (sampleNet "/assets/style.css" [])
  /\ exists w',
      wrappedLifecycle open send sampleConfig (newXhr 0) ops
      = Some (w', [0; 1])
      /\ inner w' = 11.
Proof.
  intros status ops open send.
  assert (H1 : shouldInterceptFile sampleConfig status "/assets/style.css"
               = None) by (by vm_compute).
  assert (H2 : unmatchedSends sampleConfig "" ops) by (by vm_compute).
  split_and!; [done..| |].
  - apply (unmatched_requests_use_original_primitives sampleNet open send
             sampleConfig status "/assets/style.css" []
             (mkTimeline (fun _ => 0%Z) (fun _ => [])) 0 0 ops H1 H2).
  - apply (unmatched_requests_use_original_primitives sampleNet open send
             sampleConfig status "/assets/style.css" []
             (mkTimeline (fun _ => 0%Z) (fun _ => [])) 0 0 ops H1 H2).
Defined.

(** ** Callback/event-style interception *)

Lemma waitForMerge_skip store h filename n :
  forall k fuel,
    (forall j, k <= j < k + n -> getMergedFile (store j) filename = None) ->
    waitForMerge store h filename (n + fuel) k
    = waitForMerge store h filename fuel (k + n).
Proof.
  induction n as [|n IH]; intros k fuel Hnone; simpl.
  - by rewrite Nat.add_0_r.
  - rewrite (Hnone k) by lia.
    rewrite IH; [f_equal; lia|]. intros j Hj. apply Hnone. lia.
Qed.

Lemma notify_carries_length h buffer c ev :
  c ∈ notify h buffer -> callArgument c = Some ev ->
  lengthComputable ev = true
  /\ loaded ev = length buffer /\ total ev = length buffer.
Proof.
  unfold notify. rewrite !elem_of_app.
  destruct (onprogress h), (onload h), (onreadystatechange h);
    rewrite ?elem_of_cons, ?elem_of_nil;
    intros Hin Harg; destruct_or?; subst; try done;
    by injection Harg as <-.
Qed.

(** C9, as stated, fails: the state-change handler is called without an
    argument, so it is handed no length information. *)
Lemma xhr_notifications_counterexample :
  waitForMerge (fun _ => [("model.bin", bytes_of "abcdef")])
    (mkHandlers true true true) "model.bin" 1 0
  = Some {| servedAt := 0;
            props := mkProps (bytes_of "abcdef") "arraybuffer" 200 "OK" 4;
            notifyDelay := 10;
            calls := [CallOnProgress (mkEvent "progress" true 6 6 false);
                      CallOnLoad (mkEvent "load" true 6 6 true);
                      CallOnReadyStateChange] |}
  /\ ~ carriesLength 6 CallOnReadyStateChange.
Proof.
  split; [by vm_compute|]. by intros (ev & Harg & _).
Qed.

(** C9, amended: once a poll finds a buffer for the matched file, the request
    object is given status 200, status text "OK", ready state 4, response type
    "arraybuffer" and the buffer as response, and a timer of 10 ms then calls
    the installed handlers in the order progress, load, state change; the
    progress and load handlers receive an event with [loaded] and [total]
    equal to the buffer length, the state-change handler is called without an
    argument. *)
Theorem xhr_served_state_and_notifications
    (store : nat -> list (string * ArrayBuffer)) (h : Handlers)
    (filename : string) (k fuel : nat) (buffer : ArrayBuffer) :
  getMergedFile (store k) filename = Some buffer ->
  (forall j, j < k -> getMergedFile (store j) filename = None) ->
  k < fuel ->
  exists served,
    waitForMerge store h filename fuel 0 = Some served
    /\ servedAt served = k
    /\ props served
       = {| response := buffer; responseType := "arraybuffer";
            xhrStatus := 200; xhrStatusText := "OK"; readyState := 4 |}
    /\ notifyDelay served = 10%Z
    /\ calls served
       = (if onprogress h
          then [CallOnProgress
                  (mkEvent "progress" true (length buffer) (length buffer)
                     false)]
          else [])
         ++ (if onload h
             then [CallOnLoad
                     (mkEvent "load" true (length buffer) (length buffer)
                        true)]
             else [])
         ++ (if onreadystatechange h then [CallOnReadyStateChange] else [])
    /\ (forall c ev,
           c ∈ calls served -> callArgument c = Some ev ->
           lengthComputable ev = true
           /\ loaded ev = length buffer /\ total ev = length buffer)
    /\ callArgument CallOnReadyStateChange = None.
Proof.
  intros Hget Hfirst Hfuel.
  exists {| servedAt := k;
            props := mkProps buffer "arraybuffer" 200 "OK" 4;
            notifyDelay := 10;
            calls := notify h buffer |}.
  split_and!; try done.
  - replace fuel with (k + S (fuel - S k)) by lia.
    rewrite waitForMerge_skip by (intros j Hj; apply Hfirst; lia).
    simpl. by rewrite Hget.
  - intros c ev. apply notify_carries_length.
Qed.

Lemma xhr_served_state_and_notifications_witness :
  let store (k : nat) : list (string * ArrayBuffer) :=
    if (k <? 2)%nat then [] else [("model.bin", bytes_of "abcdef")] in
  getMergedFile (store 2) "model.bin" = Some (bytes_of "abcdef")
  /\ (forall j, j < 2 -> getMergedFile (store j) "model.bin" = None)
  /\ exists served,
      waitForMerge store (mkHandlers true true true) "model.bin" 5 0
      = Some served
      /\ servedAt served = 2
      /\ calls served
         = [CallOnProgress (mkEvent "progress" true 6 6 false);
            CallOnLoad (mkEvent "load" true 6 6 true);
            CallOnReadyStateChange].
Proof.
  intros store.
  assert (H1 : getMergedFile (store 2) "model.bin" = Some (bytes_of "abcdef"))
    by reflexivity.
  assert (H2 : forall j, j < 2 -> getMergedFile (store j) "model.bin" = None)
    by (intros [|[|j]] Hj; [reflexivity..|lia]).
  split_and!; [done..|].
  destruct (xhr_served_state_and_notifications store
              (mkHandlers true true true) "model.bin" 2 5
              (bytes_of "abcdef") H1 H2 ltac:(lia))
    as (served & Hrun & Hat & _ & _ & Hcalls & _).
  exists served. by split_and!.
Defined.

(** * Further properties *)

(** ** More on strings *)

Lemma app_nil_r s : s +:+ "" = s.
Proof. induction s as [|c s IH]; [done|]. by rewrite app_cons, IH. Qed.

Lemma app_assoc_string s t u : (s +:+ t) +:+ u = s +:+ t +:+ u.
Proof. induction s as [|c s IH]; [done|]. by rewrite !app_cons, IH. Qed.

Lemma length_app_string s t :
  String.length (s +:+ t) = String.length s + String.length t.
Proof. induction s as [|c s IH]; [done|]. rewrite app_cons. simpl. by rewrite IH. Qed.

Lemma drop_app_length s t : Js.drop (String.length s) (s +:+ t) = t.
Proof. induction s as [|c s IH]; [by destruct t|]. by rewrite app_cons. Qed.

Lemma endsWith_app s t : Js.endsWith (s +:+ t) t = true.
Proof.
  unfold Js.endsWith. rewrite length_app_string.
  replace (String.length s + String.length t - String.length t)
    with (String.length s) by lia.
  rewrite drop_app_length, String.eqb_refl.
  apply andb_true_iff. split; [|done]. apply Nat.leb_le. lia.
Qed.

Lemma endsWith_empty s : Js.endsWith s "" = true.
Proof. rewrite <- (app_nil_r s) at 1. apply endsWith_app. Qed.

Lemma includes_char c a s :
  Js.includes (String a s) (String c "")
  = Ascii.eqb a c || Js.includes s (String c "").
Proof. simpl. by destruct s; rewrite andb_true_r. Qed.

Lemma includes_char_app c s t :
  Js.includes (s +:+ t) (String c "")
  = Js.includes s (String c "") || Js.includes t (String c "").
Proof.
  induction s as [|a s IH].
  - rewrite app_nil_l. by destruct t.
  - by rewrite app_cons, !includes_char, IH, orb_assoc.
Qed.

Lemma split_first_whole sep s :
  Js.includes s (String sep "") = false -> Js.first (Js.split sep s) = s.
Proof.
  intros H. rewrite <- (app_nil_r s) at 1.
  rewrite split_first_app by done. apply app_nil_r.
Qed.

Lemma split_nonempty sep s : Js.split sep s <> [].
Proof.
  destruct s as [|c s]; simpl; [done|].
  destruct (Ascii.eqb c sep); [done|]. by destruct (Js.split sep s).
Qed.

(** Splitting at a separator splits both sides. *)
Lemma split_app_sep sep d b :
  Js.split sep (d +:+ String sep b) = Js.split sep d ++ Js.split sep b.
Proof.
  induction d as [|c d IH].
  - rewrite app_nil_l. simpl. by rewrite Ascii.eqb_refl.
  - rewrite app_cons. simpl. rewrite IH.
    destruct (Ascii.eqb c sep); [done|].
    pose proof (split_nonempty sep d). by destruct (Js.split sep d).
Qed.

Lemma pop_app (xs ys : list string) : ys <> [] -> Js.pop (xs ++ ys) = Js.pop ys.
Proof.
  intros Hys. unfold Js.pop. induction xs as [|x xs IH]; [done|].
  simpl. rewrite IH. destruct (xs ++ ys) eqn:E; [|done].
  by apply app_eq_nil in E as [_ ->].
Qed.

Lemma pop_split_after_sep sep d b :
  Js.pop (Js.split sep (d +:+ String sep b)) = Js.pop (Js.split sep b).
Proof. rewrite split_app_sep. apply pop_app, split_nonempty. Qed.

Lemma decode_plain s :
  Js.includes s "%" = false -> Js.decode_from [] 0 s = Some s.
Proof.
  induction s as [|c s IH]; [done|].
  rewrite includes_char. intros [Hc Hs]%orb_false_elim.
  simpl. rewrite Hc, (IH Hs). done.
Qed.

Lemma normalizeUrl_plain_id s :
  Js.includes s "%" = false -> Js.includes s "?" = false ->
  normalizeUrl s = s.
Proof.
  intros Hp Hq. unfold normalizeUrl, Js.decodeURIComponent.
  by rewrite split_first_whole, decode_plain.
Qed.

(** X1: on a target that holds no [%] and no [?], [normalizeUrl] is the
    identity, and a query appended to it is dropped. *)
Theorem normalizeUrl_plain_target (p q : string) :
  Js.includes p "%" = false ->
  Js.includes p "?" = false ->
  normalizeUrl p = p /\ normalizeUrl (p +:+ "?" +:+ q) = p.
Proof.
  intros Hp Hq. split; [by apply normalizeUrl_plain_id|].
  unfold normalizeUrl, Js.decodeURIComponent.
  rewrite split_first_app by done.
  change (Js.first (Js.split "?" ("?" +:+ q))) with "".
  by rewrite app_nil_r, decode_plain.
Qed.

Lemma normalizeUrl_plain_target_witness :
  Js.includes "/assets/model.bin" "%" = false
  /\ Js.includes "/assets/model.bin" "?" = false
  /\ normalizeUrl ("/assets/model.bin" +:+ "?" +:+ "v=3%") = "/assets/model.bin".
Proof.
  split_and!; [done..|].
  by apply (normalizeUrl_plain_target "/assets/model.bin" "v=3%").
Defined.

Lemma urlsMatch_refl a : urlsMatch a a = true.
Proof. unfold urlsMatch. cbv zeta. by rewrite String.eqb_refl. Qed.

Lemma urlsMatch_empty_l b : urlsMatch "" b = true.
Proof.
  unfold urlsMatch. cbv zeta. change (normalizeUrl "") with "".
  destruct (String.eqb "" (normalizeUrl b)); [done|].
  by rewrite endsWith_empty, orb_true_r.
Qed.

(** X2: every target matches itself, and the empty target matches every
    target (every string ends with the empty string). *)
Theorem urlsMatch_reflexive_and_empty (a b : string) :
  urlsMatch a a = true /\ urlsMatch "" b = true /\ urlsMatch b "" = true.
Proof.
  split_and!; [apply urlsMatch_refl|apply urlsMatch_empty_l|].
  rewrite urlsMatch_sym. apply urlsMatch_empty_l.
Qed.

(** X3: a longer target matches a name it ends with, and two targets with
    the same text after their last [/] match, whatever precedes it (targets
    without [%] and [?]). *)
Theorem urlsMatch_suffix_and_last_segment (d1 d2 b : string) :
  Js.includes d1 "%" = false -> Js.includes d1 "?" = false ->
  Js.includes d2 "%" = false -> Js.includes d2 "?" = false ->
  Js.includes b "%" = false -> Js.includes b "?" = false ->
  urlsMatch (d1 +:+ b) b = true
  /\ urlsMatch (d1 +:+ "/" +:+ b) (d2 +:+ "/" +:+ b) = true.
Proof.
  intros H1p H1q H2p H2q Hbp Hbq.
  assert (Hplain : forall d, Js.includes d "%" = false ->
                             Js.includes d "?" = false ->
                             normalizeUrl (d +:+ b) = d +:+ b).
  { intros d Hdp Hdq. apply normalizeUrl_plain_id;
      rewrite includes_char_app; by rewrite ?Hdp, ?Hdq, ?Hbp, ?Hbq. }
  assert (Hslash : forall d, d +:+ "/" +:+ b = (d +:+ "/") +:+ b)
    by (intros d; by rewrite app_assoc_string).
  assert (Hdir : forall d, Js.includes d "%" = false ->
                           Js.includes d "?" = false ->
                           Js.includes (d +:+ "/") "%" = false
                           /\ Js.includes (d +:+ "/") "?" = false).
  { intros d Hdp Hdq. rewrite !includes_char_app. by rewrite Hdp, Hdq. }
  split.
  - unfold urlsMatch. cbv zeta.
    rewrite (Hplain d1 H1p H1q), (normalizeUrl_plain_id b) by done.
    destruct (String.eqb _ _); [done|]. by rewrite endsWith_app.
  - unfold urlsMatch. cbv zeta.
    destruct (Hdir d1 H1p H1q) as [? ?], (Hdir d2 H2p H2q) as [? ?].
    rewrite !Hslash, !Hplain by done. rewrite <- !Hslash.
    destruct (String.eqb _ _); [done|].
    destruct (_ || _); [done|].
    change ("/" +:+ b) with (String "/" b).
    rewrite !pop_split_after_sep. apply String.eqb_refl.
Qed.

Lemma urlsMatch_suffix_and_last_segment_witness :
  urlsMatch ("http://host/a" +:+ "model.bin") "model.bin" = true
  /\ urlsMatch ("http://host/a" +:+ "/" +:+ "model.bin")
       ("b" +:+ "/" +:+ "model.bin") = true.
Proof.
  by apply (urlsMatch_suffix_and_last_segment "http://host/a" "b"
              "model.bin").
Defined.

(** ** Encoding and decoding *)

Lemma hex_digit_high c :
  Js.hex_val (Js.hex_digit (N_of_ascii c / 16)) = Some (N_of_ascii c / 16)%N.
Proof. destruct c as [[] [] [] [] [] [] [] []]; reflexivity. Qed.

Lemma hex_digit_low c :
  Js.hex_val (Js.hex_digit (N_of_ascii c mod 16))
  = Some (N_of_ascii c mod 16)%N.
Proof. destruct c as [[] [] [] [] [] [] [] []]; reflexivity. Qed.

Lemma hex_digits_value c :
  (16 * (N_of_ascii c / 16) + N_of_ascii c mod 16)%N = N_of_ascii c.
Proof. destruct c as [[] [] [] [] [] [] [] []]; reflexivity. Qed.

Lemma unreserved_ascii c :
  Js.unreserved c = true ->
  Ascii.eqb c "%" = false /\ Ascii.eqb c "?" = false
  /\ Js.leading_ones (N_of_ascii c) = 0.
Proof. destruct c as [[] [] [] [] [] [] [] []]; by vm_compute. Qed.

Lemma high_not_unreserved c :
  Js.leading_ones (N_of_ascii c) <> 0 -> Js.unreserved c = false.
Proof. destruct c as [[] [] [] [] [] [] [] []]; by vm_compute. Qed.

Lemma continuation_not_unreserved c :
  Js.in_range 128 191 (N_of_ascii c) = true -> Js.unreserved c = false.
Proof. destruct c as [[] [] [] [] [] [] [] []]; by vm_compute. Qed.

Lemma hex_digit_not_special c :
  Ascii.eqb (Js.hex_digit (N_of_ascii c / 16)) "?" = false
  /\ Ascii.eqb (Js.hex_digit (N_of_ascii c mod 16)) "?" = false.
Proof. destruct c as [[] [] [] [] [] [] [] []]; by vm_compute. Qed.

Lemma encode_escaped c s :
  Js.unreserved c = false ->
  Js.encodeURIComponent (String c s) = escapeOf c (Js.encodeURIComponent s).
Proof. intros H. simpl. by rewrite H. Qed.

Lemma decode_escape_start c rest :
  Js.decode_from [] 0 (escapeOf c rest)
  = match Js.leading_ones (N_of_ascii c) with
    | 0 => String c <$> Js.decode_from [] 0 rest
    | 2 => Js.decode_from [N_of_ascii c] 1 rest
    | 3 => Js.decode_from [N_of_ascii c] 2 rest
    | 4 => Js.decode_from [N_of_ascii c] 3 rest
    | _ => None
    end.
Proof.
  unfold escapeOf. cbn [Js.decode_from]. rewrite Ascii.eqb_refl.
  rewrite hex_digit_high, hex_digit_low. cbv zeta.
  rewrite hex_digits_value, ascii_N_embedding. done.
Qed.

Lemma decode_escape_last c pend rest :
  Js.decode_from pend 1 (escapeOf c rest)
  = if Js.valid_utf8 (pend ++ [N_of_ascii c])
    then String.append (Js.string_of_octets (pend ++ [N_of_ascii c]))
           <$> Js.decode_from [] 0 rest
    else None.
Proof.
  unfold escapeOf. cbn [Js.decode_from]. rewrite Ascii.eqb_refl.
  rewrite hex_digit_high, hex_digit_low. cbv zeta.
  by rewrite hex_digits_value.
Qed.

Lemma decode_escape_more c pend need rest :
  Js.decode_from pend (S (S need)) (escapeOf c rest)
  = Js.decode_from (pend ++ [N_of_ascii c]) (S need) rest.
Proof.
  unfold escapeOf. cbn [Js.decode_from]. rewrite Ascii.eqb_refl.
  rewrite hex_digit_high, hex_digit_low. cbv zeta.
  by rewrite hex_digits_value.
Qed.

Lemma valid_utf8_tail2 b0 b1 :
  Js.valid_utf8 [b0; b1] = true -> Js.in_range 128 191 b1 = true.
Proof. simpl. by intros [_ ?]%andb_true_iff. Qed.

Lemma valid_utf8_tail3 b0 b1 b2 :
  Js.valid_utf8 [b0; b1; b2] = true ->
  Js.in_range 128 191 b1 = true /\ Js.in_range 128 191 b2 = true.
Proof.
  simpl. unfold Js.in_range.
  rewrite !andb_true_iff, !orb_true_iff, !andb_true_iff, !N.leb_le, !N.eqb_eq.
  lia.
Qed.

Lemma valid_utf8_tail4 b0 b1 b2 b3 :
  Js.valid_utf8 [b0; b1; b2; b3] = true ->
  Js.in_range 128 191 b1 = true /\ Js.in_range 128 191 b2 = true
  /\ Js.in_range 128 191 b3 = true.
Proof.
  simpl. unfold Js.in_range.
  rewrite !andb_true_iff, !orb_true_iff, !andb_true_iff, !N.leb_le, !N.eqb_eq.
  lia.
Qed.

Lemma decode_encode_from n :
  forall s, String.length s = n -> wellFormed s = true ->
            Js.decode_from [] 0 (Js.encodeURIComponent s) = Some s.
Proof.
  induction (lt_wf n) as [n _ IH]. intros s Hlen Hwf.
  destruct s as [|c0 rest]; [done|].
  assert (Hrec : forall r, String.length r < n -> wellFormed r = true ->
                           Js.decode_from [] 0 (Js.encodeURIComponent r)
                           = Some r).
  { intros r Hr. by apply (IH (String.length r)). }
  simpl in Hlen. cbn [wellFormed] in Hwf. cbv zeta in Hwf.
  destruct (Js.unreserved c0) eqn:Hun.
  - destruct (unreserved_ascii c0 Hun) as (Hpc & _ & Hlead).
    rewrite Hlead in Hwf. simpl. rewrite Hun. simpl. rewrite Hpc.
    rewrite Hrec by (done || lia). done.
  - rewrite (encode_escaped _ _ Hun), decode_escape_start.
    destruct (Js.leading_ones (N_of_ascii c0)) as [|[|[|[|[|?]]]]] eqn:Hlead;
      try done.
    + rewrite Hrec by (done || lia). done.
    + destruct rest as [|c1 r]; [done|].
      apply andb_true_iff in Hwf as [Hv Hr].
      pose proof (valid_utf8_tail2 _ _ Hv) as H1%continuation_not_unreserved.
      rewrite (encode_escaped _ _ H1), decode_escape_last.
      cbn [app]. rewrite Hv. simpl in Hlen.
      rewrite Hrec by (done || lia). simpl.
      by rewrite !ascii_N_embedding.
    + destruct rest as [|c1 [|c2 r]]; [done..|].
      apply andb_true_iff in Hwf as [Hv Hr].
      destruct (valid_utf8_tail3 _ _ _ Hv)
        as [H1%continuation_not_unreserved H2%continuation_not_unreserved].
      rewrite (encode_escaped _ _ H1), decode_escape_more.
      rewrite (encode_escaped _ _ H2), decode_escape_last.
      cbn [app]. rewrite Hv. simpl in Hlen.
      rewrite Hrec by (done || lia). simpl.
      by rewrite !ascii_N_embedding.
    + destruct rest as [|c1 [|c2 [|c3 r]]]; [done..|].
      apply andb_true_iff in Hwf as [Hv Hr].
      destruct (valid_utf8_tail4 _ _ _ _ Hv)
        as (H1%continuation_not_unreserved & H2%continuation_not_unreserved
            & H3%continuation_not_unreserved).
      rewrite (encode_escaped _ _ H1), decode_escape_more.
      rewrite (encode_escaped _ _ H2), decode_escape_more.
      rewrite (encode_escaped _ _ H3), decode_escape_last.
      cbn [app]. rewrite Hv. simpl in Hlen.
      rewrite Hrec by (done || lia). simpl.
      by rewrite !ascii_N_embedding.
Qed.

Lemma encode_has_no_query s :
  Js.includes (Js.encodeURIComponent s) "?" = false.
Proof.
  induction s as [|c s IH]; [done|].
  simpl. destruct (Js.unreserved c) eqn:Hun.
  - destruct (unreserved_ascii c Hun) as (_ & Hq & _).
    by rewrite includes_char, Hq, IH.
  - destruct (hex_digit_not_special c) as [H1 H2].
    by rewrite !includes_char, H1, H2, IH.
Qed.

Lemma decode_encode_normalize s :
  wellFormed s = true -> normalizeUrl (Js.encodeURIComponent s) = s.
Proof.
  intros Hwf. unfold normalizeUrl, Js.decodeURIComponent.
  rewrite split_first_whole by apply encode_has_no_query.
  by rewrite (decode_encode_from (String.length s)).
Qed.

(** X4: decoding undoes encoding: for well-formed text,
    [decodeURIComponent (encodeURIComponent s)] is [s], and so is
    [normalizeUrl (encodeURIComponent s)]: the encoded keys a file is stored
    under normalize back to the name and the path they were made from. *)
Theorem normalizeUrl_undoes_encodeURIComponent (s : string) :
  wellFormed s = true ->
  Js.decodeURIComponent (Js.encodeURIComponent s) = Some s
  /\ normalizeUrl (Js.encodeURIComponent s) = s.
Proof.
  intros Hwf. split; [|by apply decode_encode_normalize].
  by apply (decode_encode_from (String.length s)).
Qed.

Lemma normalizeUrl_undoes_encodeURIComponent_witness :
  wellFormed ("/assets/mod" +:+ Js.string_of_octets [195; 168]%N +:+ "le 1?.bin")
  = true
  /\ normalizeUrl
       (Js.encodeURIComponent
          ("/assets/mod" +:+ Js.string_of_octets [195; 168]%N +:+ "le 1?.bin"))
     = "/assets/mod" +:+ Js.string_of_octets [195; 168]%N +:+ "le 1?.bin".
Proof.
  split; [reflexivity|].
  by apply (normalizeUrl_undoes_encodeURIComponent
              ("/assets/mod" +:+ Js.string_of_octets [195; 168]%N
                 +:+ "le 1?.bin")).
Defined.

(** ** Buffer lookup *)

Section EntriesFacts.
Context {V : Type}.
Implicit Types (o : list (string * V)).




Lemma get_None o k :
  JsObject.get o k = None <-> forall k' v, (k', v) ∈ o -> k' <> k.
Proof.
  induction o as [|[k0 v0] o IH]; simpl.
  - split; [|done]. intros _ k' v Hin. by apply elem_of_nil in Hin.
  - destruct (String.eqb_spec k0 k) as [->|Hne].
    + split; [done|]. intros H. exfalso. eapply H; [by left|done].
    + rewrite IH. split.
      * intros H k' v [[= -> ->]|Hin]%elem_of_cons; eauto.
      * intros H k' v Hin. apply (H k' v). by right.
Qed.

End EntriesFacts.


(** ** More on Promise.all *)

Section PromiseAllMore.
Context {A : Type}.
Implicit Types (vs : list A) (ps : list (Settled A)) (sched : list nat).

(** Every slot that is filled holds the value its own input was fulfilled
    with. *)
Lemma settle_in_order_slots ps sched :
  forall slots slots',
    settle_in_order sched ps slots = Fulfilled slots' ->
    length slots' = length slots
    /\ forall j v, slots' !! j = Some (Some v) ->
                   slots !! j = Some (Some v) \/ ps !! j = Some (Fulfilled v).
Proof.
  induction sched as [|i sched IH]; intros slots slots'; simpl.
  - intros [= ->]. eauto.
  - destruct (ps !! i) as [[v0|e]|] eqn:Hi; [|done|by apply IH].
    intros H. apply IH in H as [Hlen Hget]. rewrite length_insert in Hlen.
    split; [done|]. intros j v Hj. apply Hget in Hj as [Hj|Hj]; [|by right].
    destruct (decide (i = j)) as [->|Hne].
    + apply list_lookup_insert_Some in Hj as [(_ & [= ->] & _)|[? _]];
        [by right|done].
    + rewrite list_lookup_insert_ne in Hj by done. by left.
Qed.

Lemma promise_all_fulfilled_inv ps sched vs :
  promise_all sched ps = Some (Fulfilled vs) -> ps = Fulfilled <$> vs.
Proof.
  unfold promise_all.
  destruct (settle_in_order _ _ _) as [slots'|e] eqn:Hrun; [|done].
  apply settle_in_order_slots in Hrun as [Hlen Hget].
  rewrite length_replicate in Hlen.
  destruct (mapM id slots') as [vs'|] eqn:Hm; [|done].
  intros [= ->]. apply mapM_Some in Hm.
  pose proof (Forall2_length _ _ _ Hm) as Hlv.
  apply (list_eq_same_length _ _ (length ps));
    [by rewrite length_fmap; lia|done|].
  intros j p q Hj Hp Hq. rewrite list_lookup_fmap in Hq.
  destruct (vs !! j) as [v|] eqn:Hv; [|done]. injection Hq as <-.
  destruct (Forall2_lookup_r _ _ _ _ _ Hm Hv) as (o & Ho & Hid).
  simpl in Hid. subst o.
  apply Hget in Ho as [Ho|Ho]; [|congruence].
  apply lookup_replicate in Ho as [? _]. done.
Qed.

(** The input that rejects first settles the aggregate. *)
Lemma promise_all_first_rejection ps before i after e :
  (forall j, j ∈ before -> forall e', ps !! j <> Some (Rejected e')) ->
  ps !! i = Some (Rejected e) ->
  promise_all (before ++ i :: after) ps = Some (Rejected e).
Proof.
  intros Hbefore Hi. unfold promise_all.
  generalize (replicate (length ps) (@None A)) as slots.
  induction before as [|j before IH]; intros slots; simpl.
  - by rewrite Hi.
  - destruct (ps !! j) as [[v|e']|] eqn:Hj.
    + apply IH. intros k Hk. apply Hbefore. by right.
    + exfalso. eapply (Hbefore j); [by left|done].
    + apply IH. intros k Hk. apply Hbefore. by right.
Qed.

(** While an input has not settled and none has rejected, the aggregate is
    pending. *)
Lemma settle_in_order_untouched ps sched i :
  i ∉ sched ->
  (forall j, j ∈ sched -> forall e, ps !! j <> Some (Rejected e)) ->
  forall slots,
    exists slots', settle_in_order sched ps slots = Fulfilled slots'
                   /\ slots' !! i = slots !! i.
Proof.
  intros Hi. induction sched as [|j sched IH]; intros Hok slots; simpl.
  - by exists slots.
  - apply not_elem_of_cons in Hi as [Hne Hi].
    assert (Hok' : forall k, k ∈ sched -> forall e, ps !! k <> Some (Rejected e))
      by (intros k Hk; apply Hok; by right).
    destruct (ps !! j) as [[v|e']|] eqn:Hj.
    + destruct (IH Hi Hok' (<[j := Some v]> slots)) as (slots' & -> & Hget).
      exists slots'. split; [done|]. rewrite Hget.
      by apply list_lookup_insert_ne.
    + exfalso. eapply (Hok j); [by left|done].
    + by apply IH.
Qed.

Lemma promise_all_pending ps sched i :
  i < length ps -> i ∉ sched ->
  (forall j, j ∈ sched -> forall e, ps !! j <> Some (Rejected e)) ->
  promise_all sched ps = None.
Proof.
  intros Hlt Hi Hok. unfold promise_all.
  destruct (settle_in_order_untouched ps sched i Hi Hok
              (replicate (length ps) None)) as (slots' & -> & Hget).
  rewrite lookup_replicate_2 in Hget by done.
  assert (mapM id slots' = None) as ->; [|done].
  apply mapM_None. apply Exists_exists. exists None. split; [|done].
  by eapply list_elem_of_lookup_2.
Qed.
End PromiseAllMore.

(** ** More on the merge engine *)

Lemma mergeSplitFiles_fulfilled_inv
    {Init : Type} (originalFetch : string -> list Init -> Settled Response)
    (fetchOrder readOrder : list nat) (filePath : string) (numParts : nat)
    (buffer : ArrayBuffer) :
  mergeSplitFiles originalFetch fetchOrder readOrder filePath numParts
  = Some (Fulfilled buffer) ->
  exists bodies,
    Forall2 (fun part body => partBody originalFetch part = Some body)
      (part_paths filePath numParts) bodies
    /\ buffer = concat bodies.
Proof.
  unfold mergeSplitFiles. cbv zeta.
  set (parts := part_paths filePath numParts).
  destruct (promise_all fetchOrder _) as [[responses|e]|] eqn:Hf; simpl;
    [|done..].
  apply promise_all_fulfilled_inv in Hf.
  destruct (check_responses parts 0 responses) eqn:Hchk; [done|].
  apply check_responses_None in Hchk.
  destruct (promise_all readOrder _) as [[bodies|e]|] eqn:Hb; simpl;
    [|done..].
  apply promise_all_fulfilled_inv in Hb.
  rewrite reduce_sum. simpl.
  pose proof (copy_buffers_concat bodies []
                (replicate (sum_list_with length bodies) Byte.x00)) as Hc.
  simpl in Hc. rewrite Hc by by rewrite length_replicate.
  intros [= <-]. exists bodies. split; [|done].
  apply mapM_Some. by eapply responses_partBody.
Qed.


(** X6: a fulfilled merge is complete, whatever the settlement orders: every
    part request succeeded and the buffer is the part bodies joined in index
    order; a partial buffer is never produced. *)
Theorem mergeSplitFiles_fulfilled_is_complete
    {Init : Type} (originalFetch : string -> list Init -> Settled Response)
    (fetchOrder readOrder : list nat) (filePath : string) (numParts : nat)
    (buffer : ArrayBuffer) :
  mergeSplitFiles originalFetch fetchOrder readOrder filePath numParts
  = Some (Fulfilled buffer) ->
  exists bodies,
    Forall2 (fun part body => partBody originalFetch part = Some body)
      (part_paths filePath numParts) bodies
    /\ buffer = concat bodies.
Proof. apply mergeSplitFiles_fulfilled_inv. Qed.

Lemma mergeSplitFiles_fulfilled_is_complete_witness :
  mergeSplitFiles sampleNet [2; 0; 0; 1; 7] [1; 1; 2; 0] "/assets/model.bin" 3
  = Some (Fulfilled (bytes_of "abcdef"))
  /\ exists bodies,
      Forall2 (fun part body => partBody sampleNet part = Some body)
        (part_paths "/assets/model.bin" 3) bodies
      /\ bytes_of "abcdef" = concat bodies.
Proof.
  assert (H : mergeSplitFiles sampleNet [2; 0; 0; 1; 7] [1; 1; 2; 0]
                "/assets/model.bin" 3
              = Some (Fulfilled (bytes_of "abcdef"))) by (by vm_compute).
  split; [exact H|].
  exact (mergeSplitFiles_fulfilled_is_complete sampleNet _ _ _ _ _ H).
Defined.

(** X7: when a part request is rejected before any other is, the merge is
    rejected with that very reason: the responses that did arrive are not
    examined, so a response that is not ok goes unreported. *)
Theorem mergeSplitFiles_first_rejection_wins
    {Init : Type} (originalFetch : string -> list Init -> Settled Response)
    (before after readOrder : list nat) (i : nat) (filePath part : string)
    (numParts : nat) (reason : JsError) :
  part_paths filePath numParts !! i = Some part ->
  originalFetch part [] = Rejected reason ->
  (forall j p, j ∈ before -> part_paths filePath numParts !! j = Some p ->
               is_Some (partResponse originalFetch p)) ->
  mergeSplitFiles originalFetch (before ++ i :: after) readOrder filePath
    numParts
  = Some (Rejected reason).
Proof.
  intros Hi Hrej Hbefore. unfold mergeSplitFiles. cbv zeta.
  rewrite (promise_all_first_rejection _ before i after reason); [done| |].
  - intros j Hj e' Hje. rewrite list_lookup_fmap in Hje.
    destruct (part_paths filePath numParts !! j) as [p|] eqn:Hp; [|done].
    destruct (Hbefore j p Hj Hp) as [r Hr]. unfold partResponse in Hr.
    simpl in Hje. destruct (originalFetch p []); congruence.
  - by rewrite list_lookup_fmap, Hi; simpl; rewrite Hrej.
Qed.

(** X8: the responses are examined only once every part request has
    settled: while one is outstanding and none has been rejected, the merge
    is still pending, even if a response that is not ok has arrived. *)
Theorem mergeSplitFiles_waits_for_every_part
    {Init : Type} (originalFetch : string -> list Init -> Settled Response)
    (fetchOrder readOrder : list nat) (i : nat) (filePath : string)
    (numParts : nat) :
  i < numParts ->
  i ∉ fetchOrder ->
  (forall j p, j ∈ fetchOrder -> part_paths filePath numParts !! j = Some p ->
               is_Some (partResponse originalFetch p)) ->
  mergeSplitFiles originalFetch fetchOrder readOrder filePath numParts = None.
Proof.
  intros Hi Hout Hok. unfold mergeSplitFiles. cbv zeta.
  rewrite (promise_all_pending _ fetchOrder i); [done| |done|].
  - by rewrite length_fmap, length_part_paths.
  - intros j Hj e' Hje. rewrite list_lookup_fmap in Hje.
    destruct (part_paths filePath numParts !! j) as [p|] eqn:Hp; [|done].
    destruct (Hok j p Hj Hp) as [r Hr]. unfold partResponse in Hr.
    simpl in Hje. destruct (originalFetch p []); congruence.
Qed.

Lemma mergeSplitFiles_first_rejection_wins_witness :
  part_paths "data.bin" 3 !! 1 = Some "data.bin.part2"
  /\ flakyNet "data.bin.part2" [] = Rejected (Foreign "TypeError: Failed to fetch")
  /\ mergeSplitFiles flakyNet ([0] ++ 1 :: [2]) [0; 1; 2] "data.bin" 3
     = Some (Rejected (Foreign "TypeError: Failed to fetch")).
Proof.
  split_and!; [done..|].
  apply (mergeSplitFiles_first_rejection_wins flakyNet [0] [2] [0; 1; 2] 1
           "data.bin" "data.bin.part2" 3); [done..|].
  intros j p ->%list_elem_of_singleton [= <-]. by eexists.
Defined.

Lemma mergeSplitFiles_waits_for_every_part_witness :
  1 < 3 /\ (1 ∉ [0; 2])
  /\ mergeSplitFiles flakyNet [0; 2] [0; 1; 2] "data.bin" 3 = None.
Proof.
  assert (H : 1 ∉ [0; 2]) by by_evaluation.
  split_and!; [lia|done|].
  apply (mergeSplitFiles_waits_for_every_part flakyNet [0; 2] [0; 1; 2] 1
           "data.bin" 3); [lia|done|].
  intros j p Hj. apply elem_of_cons in Hj as [->|Hj].
  - intros [= <-]. by eexists.
  - apply list_elem_of_singleton in Hj as ->. intros [= <-]. by eexists.
Defined.

Lemma show_inj i j : Js.show i = Js.show j -> i = j.
Proof.
  unfold Js.show. intros H. apply DecimalNat.Unsigned.to_uint_inj.
  apply (f_equal NilEmpty.uint_of_string) in H.
  rewrite !NilEmpty.usu in H. congruence.
Qed.

(** X9: the parts of a file are requested under [numParts] pairwise
    different targets, numbered from 1: the request at index [j] is for
    [<filePath>.part<j+1>]. *)
Theorem part_paths_numbered_from_one (filePath : string) (numParts : nat) :
  length (part_paths filePath numParts) = numParts
  /\ NoDup (part_paths filePath numParts)
  /\ forall j, j < numParts ->
               part_paths filePath numParts !! j
               = Some (filePath +:+ ".part" +:+ Js.show (S j)).
Proof.
  split_and!.
  - apply length_part_paths.
  - unfold part_paths. apply NoDup_fmap_2; [|apply NoDup_seq].
    intros i j H. apply String.app_inj in H. apply String.app_inj in H.
    by apply show_inj.
  - intros j Hj. unfold part_paths.
    by rewrite list_lookup_fmap, lookup_seq_lt.
Qed.

(** ** More on the orchestrator *)

Section EventFacts.
Context {Init : Type}.
Variable originalFetch : string -> list Init -> Settled Response.
Variable config : Config.
Variable partOrders : nat -> list nat * list nat.

Local Abbreviation promiseOf :=
  (mergePromise originalFetch config partOrders).
Local Abbreviation settle := (settleFile originalFetch config partOrders).
Local Abbreviation runAll := (run originalFetch config partOrders).

Hypothesis partOrders_complete :
  forall k file, files config !! k = Some file ->
                 (partOrders k).1 ≡ₚ seq 0 (parts file)
                 /\ (partOrders k).2 ≡ₚ seq 0 (parts file).

Lemma mergePromise_settles k file :
  files config !! k = Some file -> is_Some (promiseOf k file).
Proof.
  intros Hk. destruct (partOrders_complete k file Hk) as [Hf Hr].
  unfold mergePromise.
  destruct (mergeSplitFiles_cases originalFetch _ _
              (fullPathOf config (name file)) (parts file) Hf Hr)
    as [(bodies & _ & ->)|(_ & err & ->)]; by eexists.
Qed.

Lemma mergePromise_all_parts k file :
  files config !! k = Some file ->
  Forall (fun part => is_Some (partBody originalFetch part))
    (part_paths (fullPathOf config (name file)) (parts file)) ->
  exists bodies,
    Forall2 (fun part body => partBody originalFetch part = Some body)
      (part_paths (fullPathOf config (name file)) (parts file)) bodies
    /\ promiseOf k file = Some (Fulfilled (concat bodies)).
Proof.
  intros Hk Hall. destruct (partOrders_complete k file Hk) as [Hf Hr].
  unfold mergePromise.
  destruct (mergeSplitFiles_cases originalFetch _ _
              (fullPathOf config (name file)) (parts file) Hf Hr)
    as [(bodies & Hb & ->)|(Hno & _)].
  - exists bodies. split; [by apply mapM_Some|done].
  - apply mapM_None, Exists_exists in Hno as (p & Hp & Hpn).
    rewrite Forall_forall in Hall. destruct (Hall p Hp). congruence.
Qed.

(** The promises handed to the final [Promise.all], once every merge has
    settled. *)
Lemma filePromises_settled :
  exists promises,
    imap (filePromise originalFetch config partOrders) (files config)
    = Some <$> promises
    /\ length promises = length (files config)
    /\ forall k file, files config !! k = Some file ->
         exists out, promiseOf k file = Some out
           /\ promises !! k
              = Some match out with
                     | Fulfilled buffer =>
                         Fulfilled {| resultName := name file;
                                      size := length buffer |}
                     | Rejected err => Rejected err
                     end.
Proof.
  set (g := fun k file =>
              match promiseOf k file with
              | Some (Fulfilled buffer) =>
                  Fulfilled {| resultName := name file; size := length buffer |}
              | Some (Rejected err) => Rejected err
              | None => Rejected (Foreign "")
              end).
  exists (imap g (files config)). split_and!.
  - rewrite fmap_imap. apply imap_ext. intros k file Hk. simpl.
    unfold filePromise, g.
    destruct (mergePromise_settles k file Hk) as [out ->]. by destruct out.
  - apply length_imap.
  - intros k file Hk. destruct (mergePromise_settles k file Hk) as [out Hout].
    exists out. split; [done|].
    rewrite list_lookup_imap, Hk. simpl. unfold g. rewrite Hout.
    by destruct out.
Qed.
End EventFacts.

Lemma autoMergeFiles_nonempty
    {Init : Type} (originalFetch : string -> list Init -> Settled Response)
    (config : Config) (partOrders : nat -> list nat * list nat)
    (fileOrder : list nat) (st0 : State) :
  files config <> [] ->
  autoMergeFiles originalFetch config partOrders fileOrder st0
  = (run originalFetch config partOrders fileOrder st0,
     match mapM id (imap (filePromise originalFetch config partOrders)
                      (files config)) with
     | Some promises =>
         match promise_all fileOrder promises with
         | Some (Fulfilled results) => Some results
         | _ => None
         end
     | None => None
     end).
Proof. intros H. unfold autoMergeFiles. by destruct (files config). Qed.

(** X10: when every part of every configured file is fetched successfully,
    the [filesMerged] event is dispatched, and its detail lists the files in
    configuration order, whatever the order in which the merges finished,
    each with the sum of its part lengths as size. *)
Theorem filesMerged_event_lists_every_file
    {Init : Type} (originalFetch : string -> list Init -> Settled Response)
    (config : Config) (partOrders : nat -> list nat * list nat)
    (fileOrder : list nat) (st0 : State) :
  files config <> [] ->
  fileOrder ≡ₚ seq 0 (length (files config)) ->
  (forall k file, files config !! k = Some file ->
                  (partOrders k).1 ≡ₚ seq 0 (parts file)
                  /\ (partOrders k).2 ≡ₚ seq 0 (parts file)) ->
  (forall file, file ∈ files config ->
     Forall (fun part => is_Some (partBody originalFetch part))
       (part_paths (fullPathOf config (name file)) (parts file))) ->
  exists results,
    (autoMergeFiles originalFetch config partOrders fileOrder st0).2
    = Some results
    /\ Forall2
         (fun file result =>
            resultName result = name file
            /\ exists bodies,
                Forall2 (fun part body =>
                           partBody originalFetch part = Some body)
                  (part_paths (fullPathOf config (name file)) (parts file))
                  bodies
                /\ size result = sum_list_with length bodies)
         (files config) results.
Proof.
  intros Hfiles Hperm Horders Hall.
  destruct (filePromises_settled originalFetch config partOrders Horders)
    as (promises & Himap & Hlen & Hget).
  assert (Hok : forall k file, files config !! k = Some file ->
            exists bodies,
              Forall2 (fun part body => partBody originalFetch part = Some body)
                (part_paths (fullPathOf config (name file)) (parts file)) bodies
              /\ promises !! k
                 = Some (Fulfilled {| resultName := name file;
                                      size := sum_list_with length bodies |})).
  { intros k file Hk.
    destruct (mergePromise_all_parts originalFetch config partOrders Horders
                k file Hk) as (bodies & Hb & Hm).
    { apply Hall. by eapply list_elem_of_lookup_2. }
    destruct (Hget k file Hk) as (out & Hout & Hp).
    exists bodies. split; [done|]. rewrite Hp.
    assert (out = Fulfilled (concat bodies)) as -> by congruence.
    by rewrite length_concat_sum. }
  destruct (fulfilled_or_rejected promises) as [[results ->]|(k & e & Hk)].
  - exists results. split.
    + rewrite autoMergeFiles_nonempty by done. cbn [snd].
      rewrite Himap, mapM_fmap_Some by done.
      rewrite length_fmap in Hlen.
      by rewrite promise_all_fulfilled by by rewrite Hlen.
    + apply Forall2_same_length_lookup. split.
      { rewrite length_fmap in Hlen. done. }
      intros k file result Hk Hr.
      destruct (Hok k file Hk) as (bodies & Hb & Hp).
      rewrite list_lookup_fmap, Hr in Hp. injection Hp as ->.
      split; [done|]. by exists bodies.
  - assert (is_Some (files config !! k)) as [file Hfile].
    { apply lookup_lt_is_Some. rewrite <- Hlen. by eapply lookup_lt_Some. }
    destruct (Hok k file Hfile) as (? & _ & ?). congruence.
Qed.

Lemma filesMerged_event_lists_every_file_witness :
  files twinConfig <> []
  /\ [1; 0] ≡ₚ seq 0 (length (files twinConfig))
  /\ exists results,
      (autoMergeFiles twinNet twinConfig twinOrders [1; 0] (initialState [])).2
      = Some results
      /\ Forall2 (fun file result => resultName result = name file)
           (files twinConfig) results.
Proof.
  assert (H2 : [1; 0] ≡ₚ seq 0 (length (files twinConfig))) by by_evaluation.
  split_and!; [done..|].
  destruct (filesMerged_event_lists_every_file twinNet twinConfig twinOrders
              [1; 0] (initialState [])) as (results & Hev & Hall);
    [done|done| | |].
  - intros [|[|k]] file; simpl; intros [= <-]; split; by_evaluation.
  - intros file [->|Hin]%elem_of_cons;
      [|apply list_elem_of_singleton in Hin as ->];
      repeat constructor; by eexists.
  - exists results. split; [done|].
    eapply Forall2_impl; [exact Hall|]. by intros file result [? _].
Defined.

Example twin_event_in_configuration_order :
  (autoMergeFiles twinNet twinConfig twinOrders [1; 0] (initialState [])).2
  = Some [mkResult "a/model.bin" 4; mkResult "b/model.bin" 2].
Proof. by vm_compute. Qed.



(** ** Statuses *)


Section StatusFacts.
Context {Init : Type}.
Variable originalFetch : string -> list Init -> Settled Response.
Variable config : Config.
Variable partOrders : nat -> list nat * list nat.

Local Abbreviation promiseOf :=
  (mergePromise originalFetch config partOrders).
Local Abbreviation settle := (settleFile originalFetch config partOrders).



End StatusFacts.



(** ** Configuration defaults *)

(** X13: a page that supplies no configuration, or one without files, gets
    the defaults: the merge run changes nothing and dispatches no event, and
    no request is ever intercepted, whatever the status map holds. *)
Theorem unconfigured_page_is_left_alone
    {Init X Arg Ret : Type}
    (originalFetch : string -> list Init -> Settled Response)
    (originalSend : X -> list Arg -> X * Ret)
    (supplied : option SuppliedConfig)
    (partOrders : nat -> list nat * list nat) (fileOrder : list nat)
    (st0 : State) (status : gmap string MergeStatus)
    (url : string) (init : list Init) (w : WrappedXhr) (args : list Arg) :
  (forall given, supplied = Some given ->
                 suppliedFiles given = None \/ suppliedFiles given = Some []) ->
  let config := resolveConfig supplied in
  autoMergeFiles originalFetch config partOrders fileOrder st0 = (st0, None)
  /\ shouldInterceptFile config status url = None
  /\ window_fetch originalFetch config status url init
     = Delegated (originalFetch url init)
  /\ xhr_send originalSend config status w args
     = delegateSend originalSend w args.
Proof.
  intros Hsup config.
  assert (Hfiles : files config = []).
  { unfold config, resolveConfig. destruct supplied as [given|]; [|done].
    simpl. by destruct (Hsup given eq_refl) as [-> | ->]. }
  assert (Hnone : forall u, shouldInterceptFile config status u = None).
  { intros u. unfold shouldInterceptFile. rewrite Hfiles.
    by destruct (Js.includes _ _). }
  split_and!.
  - unfold autoMergeFiles. by rewrite Hfiles.
  - apply Hnone.
  - unfold window_fetch. by rewrite Hnone.
  - unfold xhr_send. by rewrite Hnone.
Qed.

Lemma unconfigured_page_is_left_alone_witness :
  let supplied := Some (mkSupplied None (Some "/assets/") (Some true) None) in
  (forall given, supplied = Some given ->
                 suppliedFiles given = None \/ suppliedFiles given = Some [])
  /\ basePath (resolveConfig supplied) = "/assets/"
  /\ window_fetch sampleNet (resolveConfig supplied) {["model.bin" := ready]}
       "/assets/model.bin" []
     = Delegated (sampleNet "/assets/model.bin" []).
Proof.
  intros supplied.
  assert (H : forall given, supplied = Some given ->
                suppliedFiles given = None \/ suppliedFiles given = Some [])
    by (intros given [= <-]; by left).
  split_and!; [done..|].
  apply (unconfigured_page_is_left_alone sampleNet
           (fun (x : unit) (_ : list unit) => (x, tt)) supplied sampleOrders []
           (initialState []) {["model.bin" := ready]} "/assets/model.bin" []
           (mkWrapped tt "") [] H).
Defined.

(** ** More on the interception decision *)

Lemma firstReady_first config status urlStr fs filename :
  firstReady config status urlStr fs = Some filename
  <-> exists before file after,
        fs = before ++ file :: after
        /\ name file = filename
        /\ candidate config status urlStr file = true
        /\ Forall (fun f => candidate config status urlStr f = false) before.
Proof.
  induction fs as [|f fs IH]; simpl.
  - split; [done|]. intros (before & file & after & H & _).
    by destruct before.
  - fold (candidate config status urlStr f).
    destruct (candidate config status urlStr f) eqn:Hc.
    + split.
      * intros [= <-]. by exists [], f, fs.
      * intros ([|f' before] & file & after & Hfs & Hname & Hcand & Hbefore).
        -- injection Hfs as <- <-. by rewrite Hname.
        -- injection Hfs as <- _. apply Forall_cons in Hbefore as [? _].
           congruence.
    + rewrite IH. split.
      * intros (before & file & after & -> & ? & ? & ?).
        exists (f :: before), file, after. split_and!; [done..|].
        by constructor.
      * intros ([|f' before] & file & after & Hfs & Hname & Hcand & Hbefore).
        -- injection Hfs as <- _. congruence.
        -- injection Hfs as <- ->. apply Forall_cons in Hbefore as [_ ?].
           by exists before, file, after.
Qed.

(** X14: [shouldInterceptFile] answers with a name exactly when the
    normalized target does not contain [.part] and some configured file is
    ready and matches it by its name or its full path; the name is that of
    the first such file in configuration order. *)
Theorem shouldInterceptFile_picks_first_ready_match
    (config : Config) (status : gmap string MergeStatus)
    (url filename : string) :
  shouldInterceptFile config status url = Some filename
  <-> Js.includes (normalizeUrl url) ".part" = false
      /\ exists before file after,
          files config = before ++ file :: after
          /\ name file = filename
          /\ (urlsMatch (normalizeUrl url) (name file)
              || urlsMatch (normalizeUrl url) (fullPathOf config (name file)))
             = true
          /\ status !! name file = Some ready
          /\ Forall (fun f =>
                       (urlsMatch (normalizeUrl url) (name f)
                        || urlsMatch (normalizeUrl url)
                             (fullPathOf config (name f))) = false
                       \/ status !! name f <> Some ready) before.
Proof.
  unfold shouldInterceptFile. cbv zeta.
  destruct (Js.includes (normalizeUrl url) ".part").
  - split; [done|]. by intros [? _].
  - rewrite firstReady_first. split.
    + intros (before & file & after & Hfs & Hname & Hcand & Hbefore).
      split; [done|]. exists before, file, after.
      apply andb_true_iff in Hcand as [Hm Hr%bool_decide_eq_true].
      split_and!; [done..|].
      eapply Forall_impl; [exact Hbefore|]. intros f Hf. simpl in Hf.
      apply andb_false_iff in Hf as [?|Hf%bool_decide_eq_false]; eauto.
    + intros (_ & before & file & after & Hfs & Hname & Hm & Hr & Hbefore).
      exists before, file, after. split_and!; [done..| |].
      * unfold candidate. rewrite Hm. by apply bool_decide_eq_true.
      * eapply Forall_impl; [exact Hbefore|]. intros f Hf. simpl.
        unfold candidate. apply andb_false_iff.
        destruct Hf as [?|?]; [by left|right]. by apply bool_decide_eq_false.
Qed.

(** X15: a request without a target, such as a [send] that no [open]
    preceded or [fetch("")], matches every configured file: it is answered
    with the first file in configuration order that is ready. *)
Theorem empty_target_gets_first_ready_file
    {Init X Arg Ret : Type}
    (originalFetch : string -> list Init -> Settled Response)
    (originalSend : X -> list Arg -> X * Ret)
    (config : Config) (status : gmap string MergeStatus)
    (before after : list FileSpec) (file : FileSpec)
    (init : list Init) (x : X) (args : list Arg) :
  files config = before ++ file :: after ->
  Forall (fun f => status !! name f <> Some ready) before ->
  status !! name file = Some ready ->
  name file <> "" ->
  shouldInterceptFile config status "" = Some (name file)
  /\ window_fetch originalFetch config status "" init = Polling (name file)
  /\ xhr_send originalSend config status (newXhr x) args
     = SendIntercepted (name file).
Proof.
  intros Hfs Hbefore Hready Hname.
  assert (Hsome : shouldInterceptFile config status "" = Some (name file)).
  { unfold shouldInterceptFile. cbv zeta.
    change (normalizeUrl "") with "". change (Js.includes "" ".part") with false.
    cbv iota. apply firstReady_first. exists before, file, after.
    split_and!; [done..| |].
    - unfold candidate. rewrite urlsMatch_empty_l. by apply bool_decide_eq_true.
    - eapply Forall_impl; [exact Hbefore|]. intros f Hf. simpl.
      unfold candidate. apply andb_false_iff. right.
      by apply bool_decide_eq_false. }
  assert (Htruthy : truthy (name file) = true) by by destruct (name file).
  split_and!; [done| |].
  - unfold window_fetch. by rewrite Hsome, Htruthy.
  - unfold xhr_send. simpl. by rewrite Hsome, Htruthy.
Qed.

Lemma empty_target_gets_first_ready_file_witness :
  let status : gmap string MergeStatus :=
    {["model.bin" := failed; "x/other.wasm" := ready]} in
  files sampleConfig = [mkFile "model.bin" 3] ++ mkFile "x/other.wasm" 2 :: []
  /\ Forall (fun f => status !! name f <> Some ready) [mkFile "model.bin" 3]
  /\ xhr_send (fun (x : unit) (_ : list unit) => (x, tt)) sampleConfig status
       (newXhr tt) []
     = SendIntercepted "x/other.wasm".
Proof.
  intros status.
  assert (H : Forall (fun f => status !! name f <> Some ready)
                [mkFile "model.bin" 3]) by (by repeat constructor).
  split_and!; [done..|].
  apply (empty_target_gets_first_ready_file sampleNet
           (fun (x : unit) (_ : list unit) => (x, tt)) sampleConfig status
           [mkFile "model.bin" 3] [] (mkFile "x/other.wasm" 2) [] tt []
           eq_refl H eq_refl).
  done.
Defined.

(** ** More on the two waits *)

(** X16: whatever the clock and the store do, a settled intercepted fetch is
    either fulfilled with the buffer the store yields at that poll, wrapped
    in the synthesized response, or rejected with the timeout error at a poll
    later than 30 s after the call; every earlier poll found no buffer and
    was within the 30 s.  The request is never rejected within the
    ceiling. *)
Theorem checkData_settles_soundly
    (tl : Timeline) (filename : string) (fuel k : nat)
    (out : Settled Response) :
  checkData tl filename fuel 1 = Some (k, out) ->
  1 <= k <= fuel
  /\ (forall j, 1 <= j < k ->
        getMergedFile (storeAt tl j) filename = None
        /\ (now tl j - now tl 0 <= maxWait)%Z)
  /\ ((exists buffer,
          getMergedFile (storeAt tl k) filename = Some buffer
          /\ out = Fulfilled (synthesized filename buffer))
      \/ (getMergedFile (storeAt tl k) filename = None
          /\ (now tl k - now tl 0 > maxWait)%Z
          /\ out = Rejected (timeoutError filename))).
Proof.
  assert (Hgen : forall fuel start,
    checkData tl filename fuel start = Some (k, out) ->
    start <= k < start + fuel
    /\ (forall j, start <= j < k ->
          getMergedFile (storeAt tl j) filename = None
          /\ (now tl j - now tl 0 <= maxWait)%Z)
    /\ ((exists buffer,
            getMergedFile (storeAt tl k) filename = Some buffer
            /\ out = Fulfilled (synthesized filename buffer))
        \/ (getMergedFile (storeAt tl k) filename = None
            /\ (now tl k - now tl 0 > maxWait)%Z
            /\ out = Rejected (timeoutError filename)))).
  { clear fuel. intros fuel. induction fuel as [|fuel IH]; intros start; [done|].
    simpl.
    destruct (getMergedFile (storeAt tl start) filename) as [buffer|] eqn:Hget.
    - intros [= <- <-]. split_and!; [lia..| |].
      + intros j Hj. lia.
      + left. by exists buffer.
    - destruct (Z.gtb_spec (now tl start - now tl 0) maxWait) as [Hgt|Hle].
      + intros [= <- <-]. split_and!; [lia..| |].
        * intros j Hj. lia.
        * right. split_and!; [done|lia|done].
      + intros H. apply IH in H as (Hk & Hquiet & Hout).
        split_and!; [lia..| |done].
        intros j Hj. destruct (decide (j = start)) as [->|Hne]; [done|].
        apply Hquiet. lia. }
  intros H. apply Hgen in H as (Hk & Hquiet & Hout).
  split_and!; [lia..|done|done].
Qed.

Lemma checkData_settles_soundly_witness :
  let tl :=
    mkTimeline (fun k => 20000 * Z.of_nat k)%Z (fun _ => []) in
  checkData tl "model.bin" 5 1
  = Some (2, Rejected (timeoutError "model.bin"))
  /\ (now tl 2 - now tl 0 > maxWait)%Z.
Proof.
  intros tl.
  assert (H : checkData tl "model.bin" 5 1
              = Some (2, Rejected (timeoutError "model.bin")))
    by reflexivity.
  split; [exact H|].
  destruct (checkData_settles_soundly tl "model.bin" 5 2 _ H)
    as (_ & _ & [(buffer & _ & Hout)|(_ & Hgt & _)]); [done|exact Hgt].
Defined.

(** X17: the callback/event-style wait has no ceiling and does not look at
    the clock: as long as no buffer can be found it is still polling, after
    any number of runs; a request object for a file whose buffer never
    appears is never answered. *)
Theorem waitForMerge_never_gives_up
    (store : nat -> list (string * ArrayBuffer)) (h : Handlers)
    (filename : string) (fuel : nat) :
  (forall j, j < fuel -> getMergedFile (store j) filename = None) ->
  waitForMerge store h filename fuel 0 = None.
Proof.
  intros Hnone.
  assert (Hgen : forall n k, (forall j, k <= j < k + n ->
                                getMergedFile (store j) filename = None) ->
                             waitForMerge store h filename n k = None).
  { induction n as [|n IH]; intros k Hk; simpl; [done|].
    rewrite Hk by lia. apply IH. intros j Hj. apply Hk. lia. }
  apply Hgen. intros j Hj. apply Hnone. lia.
Qed.

Lemma waitForMerge_never_gives_up_witness :
  (forall j, j < 1000 -> getMergedFile ((fun _ => []) j) "model.bin" = None)
  /\ waitForMerge (fun _ => []) (mkHandlers true true true) "model.bin"
       1000 0 = None.
Proof.
  assert (H : forall j, j < 1000 ->
                        getMergedFile ((fun _ : nat => []) j) "model.bin" = None)
    by done.
  split; [exact H|].
  exact (waitForMerge_never_gives_up (fun _ => []) (mkHandlers true true true)
           "model.bin" 1000 H).
Defined.

(** ** Requests under the published keys *)

Lemma pop_split_is_suffix sep s :
  exists d, s = d +:+ Js.pop (Js.split sep s)
            /\ (tail (Js.split sep s) = [] -> d = "").
Proof.
  induction s as [|c s (d & Hs & Hd)].
  - by exists "".
  - simpl. pose proof (split_nonempty sep s) as Hne.
    destruct (Ascii.eqb c sep).
    + exists (String c d). split; [|by destruct (Js.split sep s)].
      rewrite app_cons, Hs at 1. f_equal. f_equal.
      unfold Js.pop. simpl. by destruct (Js.split sep s).
    + destruct (Js.split sep s) as [|seg [|seg' segs]] eqn:Hsplit; [done| |].
      * exists "". split; [|done]. rewrite app_nil_l.
        unfold Js.pop in *. simpl in *. rewrite (Hd eq_refl) in Hs.
        by rewrite Hs.
      * exists (String c d). split; [|done].
        rewrite app_cons, Hs at 1. done.
Qed.

Lemma includes_char_suffix c d s :
  Js.includes (d +:+ s) (String c "") = false ->
  Js.includes s (String c "") = false.
Proof. rewrite includes_char_app. by intros [_ ?]%orb_false_elim. Qed.

Lemma includes_suffix_false d s t :
  Js.includes (d +:+ s) t = false -> Js.includes s t = false.
Proof.
  intros H. destruct (Js.includes s t) eqn:Hs; [|done].
  by rewrite (includes_app_l d s t Hs) in H.
Qed.

(** X18: once a file is ready, a request whose target is any of the five
    keys the file is stored under is intercepted for that file, provided no
    earlier configured file is ready, the name and the base path hold no [%]
    and no [?], and the full path does not contain [.part]. *)
Theorem requests_under_published_keys_are_intercepted
    (config : Config) (status : gmap string MergeStatus)
    (before after : list FileSpec) (file : FileSpec) (key : string) :
  files config = before ++ file :: after ->
  Forall (fun f => status !! name f <> Some ready) before ->
  status !! name file = Some ready ->
  Js.includes (basePath config) "%" = false ->
  Js.includes (basePath config) "?" = false ->
  Js.includes (name file) "%" = false ->
  Js.includes (name file) "?" = false ->
  wellFormed (name file) = true ->
  wellFormed (fullPathOf config (name file)) = true ->
  Js.includes (fullPathOf config (name file)) ".part" = false ->
  key ∈ variants config file ->
  shouldInterceptFile config status key = Some (name file).
Proof.
  intros Hfs Hbefore Hready Hbp Hbq Hnp Hnq Hwn Hwf Hpart Hkey.
  set (fullPath := fullPathOf config (name file)) in *.
  assert (Hfull : fullPath = basePath config +:+ name file).
  { unfold fullPath, fullPathOf. by destruct (basePath config). }
  assert (Hfp : Js.includes fullPath "%" = false)
    by (by rewrite Hfull, includes_char_app, Hbp, Hnp).
  assert (Hfq : Js.includes fullPath "?" = false)
    by (by rewrite Hfull, includes_char_app, Hbq, Hnq).
  assert (Hnpart : Js.includes (name file) ".part" = false).
  { rewrite Hfull in Hpart. by eapply includes_suffix_false. }
  destruct (pop_split_is_suffix "/" (name file)) as (d & Hbase & _).
  set (basename := Js.pop (Js.split "/" (name file))) in *.
  (* what each key normalizes to: the name, the full path or the basename *)
  assert (Hnorm : normalizeUrl key = name file \/ normalizeUrl key = fullPath
                  \/ normalizeUrl key = basename).
  { unfold variants in Hkey. fold fullPath basename in Hkey.
    rewrite !elem_of_cons, elem_of_nil in Hkey.
    destruct Hkey as [Hk|[Hk|[Hk|[Hk|[Hk|Hk]]]]]; [rewrite Hk..|done].
    - left. by apply normalizeUrl_plain_id.
    - right. left. by apply normalizeUrl_plain_id.
    - right. right. rewrite Hbase in Hnp, Hnq.
      apply normalizeUrl_plain_id; by eapply includes_char_suffix.
    - left. by apply (decode_encode_normalize (name file)).
    - right. left. by apply (decode_encode_normalize fullPath). }
  assert (Hsome : forall u,
             Js.includes u ".part" = false ->
             (urlsMatch u (name file) || urlsMatch u fullPath) = true ->
             firstReady config status u (files config) = Some (name file)).
  { intros u Hu Hm. apply firstReady_first. exists before, file, after.
    split_and!; [done..| |].
    - unfold candidate. fold fullPath. rewrite Hm.
      by apply bool_decide_eq_true.
    - eapply Forall_impl; [exact Hbefore|]. intros f Hf. simpl.
      unfold candidate. apply andb_false_iff. right.
      by apply bool_decide_eq_false. }
  unfold shouldInterceptFile. cbv zeta.
  destruct Hnorm as [-> | [-> | ->]].
  - rewrite Hnpart. apply Hsome; [done|]. by rewrite urlsMatch_refl.
  - rewrite Hpart. apply Hsome; [done|].
    by rewrite (urlsMatch_refl fullPath), orb_true_r.
  - assert (Hbpart : Js.includes basename ".part" = false).
    { rewrite Hbase in Hnpart. by eapply includes_suffix_false. }
    rewrite Hbpart. apply Hsome; [done|].
    assert (urlsMatch basename (name file) = true) as ->; [|done].
    unfold urlsMatch. cbv zeta.
    rewrite (normalizeUrl_plain_id (name file)) by done.
    rewrite (normalizeUrl_plain_id basename)
      by (rewrite Hbase in Hnp, Hnq; by eapply includes_char_suffix).
    destruct (String.eqb _ _); [done|].
    assert (Js.endsWith (name file) basename = true) as ->;
      [|by rewrite orb_true_r].
    pose proof (endsWith_app d basename) as He. by rewrite <- Hbase in He.
Qed.

Lemma requests_under_published_keys_are_intercepted_witness :
  let status : gmap string MergeStatus :=
    {["model.bin" := failed; "x/other.wasm" := ready]} in
  files sampleConfig = [mkFile "model.bin" 3] ++ mkFile "x/other.wasm" 2 :: []
  /\ Forall (fun f => status !! name f <> Some ready) [mkFile "model.bin" 3]
  /\ "%2Fassets%2Fx%2Fother.wasm" ∈ variants sampleConfig (mkFile "x/other.wasm" 2)
  /\ shouldInterceptFile sampleConfig status "%2Fassets%2Fx%2Fother.wasm"
     = Some "x/other.wasm".
Proof.
  intros status.
  assert (H : Forall (fun f => status !! name f <> Some ready)
                [mkFile "model.bin" 3]) by (by repeat constructor).
  assert (Hkey : "%2Fassets%2Fx%2Fother.wasm"
                 ∈ variants sampleConfig (mkFile "x/other.wasm" 2))
    by by_evaluation.
  split_and!; [done..|].
  by apply (requests_under_published_keys_are_intercepted sampleConfig status
              [mkFile "model.bin" 3] [] (mkFile "x/other.wasm" 2)
              "%2Fassets%2Fx%2Fother.wasm" eq_refl H).
Defined.

(** ** A file without parts *)




